(** * Pipelines namespace of the orchest-api: the delete, create and update
      endpoints and the two-phase execution they run under.

    Source: services/orchest-api/app/app/apis/namespace_pipelines.py.

    The endpoints are embedded as functions over an explicit store.  The
    two-phase executor ([TwoPhaseExecutor], [TwoPhaseFunction]) and the two
    delegated operations ([AbortPipelineRun], [StopInteractiveSession]) live
    in modules that are imported by the source file but are not part of it;
    they are modelled from the specification and marked as such. *)

From stdpp Require Import base option list gmap strings.
From Stdlib Require Import ZArith Lia.

Open Scope string_scope.
Open Scope list_scope.

(** ** Errors

    A Python exception is its class and its text; [str(e)] is the text. *)

Inductive ErrKind :=
| StoreUnavailable
| TransactionDoomed
| CommitFailed
| Raised.

Record Err := MkErr { err_kind : ErrKind; err_text : string }.

Definition str (e : Err) : string := err_text e.

Module Coordinator.
Section Coordinator.

(** The coordinator is generic in the store it guards, in the external
    world the collateral effects act on, in the captured state of a
    collateral effect and in the labels that name calls in the log. *)
Context {Store External Collateral Label : Type}.

(** [collateral_step spec]: the external action of the operation that
    returned [spec] from its transactional step. *)
Variable collateral_step : Collateral -> External -> Err + External.

(** Whether the store accepts the commit of the working state. *)
Variable can_commit : Store -> bool.

Inductive Event :=
| EvCall (l : Label)
| EvRegister (c : Collateral)
| EvCommit
| EvCommitFailed
| EvRollback
| EvCollateral (c : Collateral).

(** Modelled from the spec: the body of a transactional step.  The module
    _orchest.internals.two_phase_executor is missing; section 4.2 gives the
    contract: a transactional step reads and writes the store through the
    unit of work, may delegate to nested operations through the same
    coordinator, and returns the state its collateral step needs, or
    nothing.  An exception that is not caught ends the step. *)
Inductive Tx : Type :=
| Return (spec : option Collateral)
| Raise (e : Err)
| Query {A : Type} (q : Store -> A) (k : A -> Tx)
| Mutate (l : Label) (f : Store -> Err + Store) (k : Tx)
| Delegate (l : Label) (op : Tx) (k : Tx).

(** Modelled from the spec: the coordinator of section 3 and 4.1, one unit
    of work ([work], the uncommitted state of the store), one append-only
    queue of collateral effects and the doomed mark.  [log] records what
    happened, in order. *)
Record Coord := MkCoord {
  work : Store;
  queue : list Collateral;
  doomed : option Err;
  log : list Event
}.

Definition emit (ev : Event) (c : Coord) : Coord :=
  MkCoord (work c) (queue c) (doomed c) (log c ++ [ev]).

Definition set_work (s : Store) (c : Coord) : Coord :=
  MkCoord s (queue c) (doomed c) (log c).

Definition doom (e : Err) (c : Coord) : Coord :=
  MkCoord (work c) (queue c) (Some e) (log c).

(** Appending to the queue on success, nothing when the step returned no
    collateral state. *)
Definition register (spec : option Collateral) (c : Coord) : Coord :=
  match spec with
  | Some x => MkCoord (work c) (queue c ++ [x]) (doomed c) (log c ++ [EvRegister x])
  | None => c
  end.

(** Modelled from the spec: [run] of section 4.1 is the [Delegate] case:
    fail fast when doomed; otherwise run the transactional step, on success
    append its collateral effect, on failure pass the error on unchanged
    and mark the unit of work doomed (the mark keeps the triggering
    error). *)
Fixpoint exec (t : Tx) (c : Coord) : (Err + option Collateral) * Coord :=
  match t with
  | Return spec => (inr spec, c)
  | Raise e => (inl e, c)
  | Query q k => exec (k (q (work c))) c
  | Mutate l f k =>
      let c1 := emit (EvCall l) c in
      match f (work c1) with
      | inl e => (inl e, c1)
      | inr s' => exec k (set_work s' c1)
      end
  | Delegate l op k =>
      match doomed c with
      | Some _ => (inl (MkErr TransactionDoomed "TransactionDoomed"), c)
      | None =>
          match exec op (emit (EvCall l) c) with
          | (inr spec, c2) => exec k (register spec c2)
          | (inl e, c2) => (inl e, doom e c2)
          end
      end
  end.


(** Modelled from the spec: opening a scope begins the unit of work on the
    durable store with an empty queue. *)
Definition fresh (durable : Store) : Coord := MkCoord durable [] None [].

Definition open (can_begin : bool) (durable : Store) : Err + Coord :=
  if can_begin then inr (fresh durable)
  else inl (MkErr StoreUnavailable "StoreUnavailable").

(** What a closed scope leaves behind: what the caller observes (an error,
    or the collateral failures collected during the drain), the durable
    store, the external world and the log. *)
Record Outcome := MkOutcome {
  result : Err + list (Collateral * Err);
  store : Store;
  external : External;
  events : list Event
}.

(** Best-effort drain: every queued effect is invoked, in order; a failure
    is collected and the drain goes on. *)
Fixpoint drain (q : list Collateral) (ext : External)
  : External * list Event * list (Collateral * Err) :=
  match q with
  | [] => (ext, [], [])
  | x :: rest =>
      match collateral_step x ext with
      | inr ext1 =>
          let '(ext2, evs, fails) := drain rest ext1 in
          (ext2, EvCollateral x :: evs, fails)
      | inl e =>
          let '(ext2, evs, fails) := drain rest ext in
          (ext2, EvCollateral x :: evs, (x, e) :: fails)
      end
  end.

(** Modelled from the spec: closing the scope (section 4.1).  An error out
    of the body, or a doomed unit of work, rolls back and runs nothing; a
    refused commit surfaces as CommitFailed and runs nothing; after a commit
    the queue is drained. *)
Definition close (durable : Store) (ext : External)
    (r : (Err + option Collateral) * Coord) : Outcome :=
  let c := snd r in
  match fst r with
  | inl e => MkOutcome (inl e) durable ext (log c ++ [EvRollback])
  | inr _ =>
      match doomed c with
      | Some e => MkOutcome (inl e) durable ext (log c ++ [EvRollback])
      | None =>
          if can_commit (work c) then
            let '(ext', evs, fails) := drain (queue c) ext in
            MkOutcome (inr fails) (work c) ext' (log c ++ EvCommit :: evs)
          else
            MkOutcome (inl (MkErr CommitFailed "CommitFailed"))
                      durable ext (log c ++ [EvCommitFailed])
      end
  end.

Definition scope (can_begin : bool) (body : Tx) (durable : Store) (ext : External)
  : Outcome :=
  match open can_begin durable with
  | inl e => MkOutcome (inl e) durable ext []
  | inr c0 => close durable ext (exec body c0)
  end.

(** Reading the log. *)
Definition registered (evs : list Event) : list Collateral :=
  omap (fun ev => match ev with EvRegister x => Some x | _ => None end) evs.

Definition ran (evs : list Event) : list Collateral :=
  omap (fun ev => match ev with EvCollateral x => Some x | _ => None end) evs.

Definition calls (evs : list Event) : list Label :=
  omap (fun ev => match ev with EvCall l => Some l | _ => None end) evs.

Definition commits (evs : list Event) : nat :=
  length (omap (fun ev => match ev with EvCommit => Some tt | _ => None end) evs).

Definition rollbacks (evs : list Event) : nat :=
  length (omap (fun ev => match ev with EvRollback => Some tt | _ => None end) evs).

(** Events of the transactional phase: calls and registrations only. *)
Definition tx_event (ev : Event) : bool :=
  match ev with
  | EvCall _ | EvRegister _ => true
  | _ => false
  end.

End Coordinator.
End Coordinator.

(** ** The store behind the endpoints *)

Set Warnings "-register-all,-clear-no-such-hyp".

(** [request.get_json()]: a JSON value; an object is a Python dict. *)
Inductive Json :=
| JNull
| JBool (b : bool)
| JNum (z : Z)
| JStr (s : string)
| JArr (l : list Json)
| JObj (m : gmap string Json).

(** A row of the pipeline-runs table without its primary key, the run uuid.
    The columns are the ones the query of [DeletePipeline._transaction]
    names; [run_interactive] tells the rows of [InteractivePipelineRun] from
    the other runs of the table. *)
Record Run := MkRun {
  run_project_uuid : string;
  run_pipeline_uuid : string;
  run_status : string;
  run_interactive : bool
}.

(** The tables: pipelines as the keyword dicts they were created from, runs
    by uuid, interactive sessions by (project uuid, pipeline uuid). *)
Record Store := MkStore {
  pipelines : list (gmap string Json);
  runs : gmap string Run;
  sessions : gset (string * string)
}.

(** What lives outside the store: running executions and running
    sessions. *)
Record External := MkExternal {
  live_runs : gset string;
  live_sessions : gset (string * string)
}.

(** The state a collateral step is bound with. *)
Inductive CollateralSpec :=
| CollAbortRun (run_uuid : string)
| CollStopSession (project_uuid pipeline_uuid : string).

(** Names of the calls that show in the log: the three operations, and the
    store primitives they use. *)
Inductive Label :=
| LDeletePipeline (project_uuid pipeline_uuid : string)
| LAbortPipelineRun (run_uuid : string)
| LStopInteractiveSession (project_uuid pipeline_uuid : string)
| LMarkAborted (run_uuid : string)
| LDeleteRun (run_uuid : string)
| LDeleteSession (project_uuid pipeline_uuid : string)
| LAdd
| LUpdate.

#[global] Instance Label_eq_dec : EqDecision Label.
Proof. solve_decision. Defined.

#[global] Instance CollateralSpec_eq_dec : EqDecision CollateralSpec.
Proof. solve_decision. Defined.

(** Everything the environment decides: whether a transaction can begin,
    whether a commit is accepted, which store primitive raises what, which
    keyword dict the model constructor or the bulk update refuses, and which
    external action fails. *)
Record Faults := MkFaults {
  can_begin : bool;
  can_commit : Store -> bool;
  fault : Label -> option Err;
  add_fault : gmap string Json -> option Err;
  update_fault : gmap string Json -> option Err;
  collateral_fault : CollateralSpec -> option Err
}.

Definition no_faults : Faults :=
  MkFaults true (fun _ => true) (fun _ => None) (fun _ => None) (fun _ => None)
           (fun _ => None).

Import Coordinator.

Abbreviation Tx := (@Coordinator.Tx Store CollateralSpec Label).
Abbreviation Event := (@Coordinator.Event CollateralSpec Label).
Abbreviation Coord := (@Coordinator.Coord Store CollateralSpec Label).
Abbreviation Outcome := (@Coordinator.Outcome Store External CollateralSpec Label).

(** A store primitive: raises what the environment says, or mutates. *)
Definition primitive (fl : Faults) (l : Label) (f : Store -> Store) (k : Tx) : Tx :=
  Mutate l (fun s => match fault fl l with
                     | Some e => inl e
                     | None => inr (f s)
                     end) k.

(** ** The delegated operations *)

Definition mark_aborted (run_uuid : string) (s : Store) : Store :=
  MkStore (pipelines s)
          (alter (fun r => MkRun (run_project_uuid r) (run_pipeline_uuid r)
                                 "ABORTED" (run_interactive r)) run_uuid (runs s))
          (sessions s).

(** Modelled from the spec: app.apis.namespace_runs is missing.  Section 4.3:
    the transactional step of abort-run marks the execution aborted, its
    collateral step stops the underlying external execution. *)
Definition AbortPipelineRun (fl : Faults) (run_uuid : string) : Tx :=
  primitive fl (LMarkAborted run_uuid) (mark_aborted run_uuid)
    (Return (Some (CollAbortRun run_uuid))).

Definition delete_session (project_uuid pipeline_uuid : string) (s : Store) : Store :=
  MkStore (pipelines s) (runs s) (sessions s ∖ {[ (project_uuid, pipeline_uuid) ]}).

(** Modelled from the spec: app.apis.namespace_sessions is missing.  Section
    4.3 and scenarios A, B and D: stop-session acts on the interactive
    session of the pipeline if one exists (its row leaves the store, as the
    docstring of [DeletePipeline] says, and its collateral step stops the
    running session); without a session it changes nothing and has no
    collateral effect. *)
Definition StopInteractiveSession (fl : Faults) (project_uuid pipeline_uuid : string) : Tx :=
  Query (fun s => bool_decide ((project_uuid, pipeline_uuid) ∈ sessions s))
    (fun found =>
       if found then
         primitive fl (LDeleteSession project_uuid pipeline_uuid)
           (delete_session project_uuid pipeline_uuid)
           (Return (Some (CollStopSession project_uuid pipeline_uuid)))
       else Return None).

(** Modelled from the spec: the collateral steps of the two delegated
    operations, acting on the external world only. *)
Definition collateral_step (fl : Faults) (c : CollateralSpec) (ext : External)
  : Err + External :=
  match collateral_fault fl c with
  | Some e => inl e
  | None =>
      inr match c with
          | CollAbortRun u => MkExternal (live_runs ext ∖ {[ u ]}) (live_sessions ext)
          | CollStopSession p q => MkExternal (live_runs ext) (live_sessions ext ∖ {[ (p, q) ]})
          end
  end.

(** ** DeletePipeline *)

(** The filter of the query: interactive runs of the pipeline whose status
    is PENDING or STARTED. *)
Definition non_terminal (project_uuid pipeline_uuid : string) (ur : string * Run) : Prop :=
  run_interactive ur.2 = true ∧
  run_project_uuid ur.2 = project_uuid ∧
  run_pipeline_uuid ur.2 = pipeline_uuid ∧
  run_status ur.2 ∈ ["PENDING"; "STARTED"].

#[global] Instance non_terminal_dec p q ur : Decision (non_terminal p q ur).
Proof. unfold non_terminal. apply _. Defined.

Definition interactive_runs (project_uuid pipeline_uuid : string) (s : Store)
  : list (string * Run) :=
  filter (non_terminal project_uuid pipeline_uuid) (map_to_list (runs s)).

Definition delete_run (run_uuid : string) (s : Store) : Store :=
  MkStore (pipelines s) (delete run_uuid (runs s)) (sessions s).

(** The loop of [_transaction]: for each run, abort it through the same
    executor, then [db.session.delete(run)]. *)
Fixpoint abort_and_delete (fl : Faults) (rs : list (string * Run)) (k : Tx) : Tx :=
  match rs with
  | [] => k
  | (uuid, _) :: rest =>
      Delegate (LAbortPipelineRun uuid) (AbortPipelineRun fl uuid)
        (primitive fl (LDeleteRun uuid) (delete_run uuid)
           (abort_and_delete fl rest k))
  end.

(** [DeletePipeline._transaction]: no pipeline row is touched and nothing is
    returned. *)
Definition DeletePipeline_transaction (fl : Faults) (project_uuid pipeline_uuid : string)
  : Tx :=
  Query (interactive_runs project_uuid pipeline_uuid)
    (fun rs =>
       abort_and_delete fl rs
         (Delegate (LStopInteractiveSession project_uuid pipeline_uuid)
            (StopInteractiveSession fl project_uuid pipeline_uuid)
            (Return None))).

(** [DeletePipeline._collateral]: [pass]. *)
Definition DeletePipeline_collateral (ext : External) : External := ext.

(** The calls the loop of [_transaction] makes for the given runs when
    nothing raises: per run, the delegation to abort-run, the store write
    of abort-run, and the deletion of the run. *)
Definition loop_calls (uuids : list string) : list Label :=
  uuids ≫= (fun u => [LAbortPipelineRun u; LMarkAborted u; LDeleteRun u]).

(** The whole [_transaction], with the stop-session delegation at the end
    and its store write when there is a session. *)
Definition transaction_calls (project_uuid pipeline_uuid : string) (s : Store)
  : list Label :=
  loop_calls (interactive_runs project_uuid pipeline_uuid s).*1 ++
  LStopInteractiveSession project_uuid pipeline_uuid ::
  (if bool_decide ((project_uuid, pipeline_uuid) ∈ sessions s)
   then [LDeleteSession project_uuid pipeline_uuid] else []).

(** The collateral effects the whole [_transaction] registers. *)
Definition transaction_collateral (project_uuid pipeline_uuid : string) (s : Store)
  : list CollateralSpec :=
  (CollAbortRun <$> (interactive_runs project_uuid pipeline_uuid s).*1) ++
  (if bool_decide ((project_uuid, pipeline_uuid) ∈ sessions s)
   then [CollStopSession project_uuid pipeline_uuid] else []).

(** ** The endpoints *)

Record Response := MkResponse { body : Json; status : Z }.

Definition message (text : string) : Json := JObj {[ "message" := JStr text ]}.

(** The body of the scope of [Pipeline.delete]:
    [DeletePipeline(tpe).transaction(project_uuid, pipeline_uuid)]. *)
Definition delete_body (fl : Faults) (project_uuid pipeline_uuid : string) : Tx :=
  Delegate (LDeletePipeline project_uuid pipeline_uuid)
    (DeletePipeline_transaction fl project_uuid pipeline_uuid)
    (Return None).

(** The scope itself: [with TwoPhaseExecutor(db.session) as tpe: ...]. *)
Definition delete_scope (fl : Faults) (project_uuid pipeline_uuid : string)
    (s : Store) (ext : External) : Outcome :=
  scope (collateral_step fl) (can_commit fl) (can_begin fl)
    (delete_body fl project_uuid pipeline_uuid) s ext.

(** [Pipeline.delete]: any exception out of the scope becomes a 500 whose
    message is [str(e)].  Collateral failures are collected by the executor
    and are not raised. *)
Definition Pipeline_delete (fl : Faults) (project_uuid pipeline_uuid : string)
    (s : Store) (ext : External) : Response * Outcome :=
  let o := delete_scope fl project_uuid pipeline_uuid s ext in
  match result o with
  | inl e => (MkResponse (message (str e)) 500, o)
  | inr _ => (MkResponse (message "Pipeline deletion was successful.") 200, o)
  end.

(** What an endpoint that uses [db.session] directly leaves behind. *)
Record Handled := MkHandled {
  response : Response;
  stored : Store;
  trace : list Event
}.

(** [pipeline["env_variables"] = pipeline.get("env_variables", {})]. *)
Definition set_env_variables (pipeline : gmap string Json) : gmap string Json :=
  <[ "env_variables" := default (JObj ∅) (pipeline !! "env_variables") ]> pipeline.

(** [db.session.add] of the pipeline model built from the dict as keyword
    arguments, on the working store. *)
Definition add_pipeline (row : gmap string Json) (s : Store) : Store :=
  MkStore (pipelines s ++ [row]) (runs s) (sessions s).

(** The body of [PipelineList.post], that is what the handler returns before
    the decorator [@api.marshal_with(schema.pipeline)] marshals it: anything
    that raises inside the [try] (a body that is not a dict, a refused
    keyword dict, a refused commit) rolls back and returns the fixed message
    with 500. *)
Definition PipelineList_post (fl : Faults) (request_json : Json) (s : Store) : Handled :=
  let failed := MkResponse (message "Pipeline creation failed.") 500 in
  match request_json with
  | JObj d =>
      let pipeline := set_env_variables d in
      match add_fault fl pipeline with
      | Some _ => MkHandled failed s [EvCall LAdd; EvRollback]
      | None =>
          let s' := add_pipeline pipeline s in
          if can_commit fl s' then
            MkHandled (MkResponse (JObj pipeline) 201) s' [EvCall LAdd; EvCommit]
          else MkHandled failed s [EvCall LAdd; EvCommitFailed; EvRollback]
      end
  | _ => MkHandled failed s [EvRollback]
  end.

(** [@api.marshal_with(schema)]: the decorator marshals what the handler
    returns, the body of an error tuple included, and keeps the status.  The
    schema module is not part of the source file: [marshal] stands for
    marshalling with the schema of the decorator. *)
Definition marshal_with (marshal : Json -> Json) (r : Response) : Response :=
  MkResponse (marshal (body r)) (status r).

(** [PipelineList.post] as it is served, decorator included. *)
Definition PipelineList_post_answer (marshal : Json -> Json) (fl : Faults)
    (request_json : Json) (s : Store) : Response :=
  marshal_with marshal (response (PipelineList_post fl request_json s)).

(** [filter_by(project_uuid=project_uuid, uuid=pipeline_uuid)] on a pipeline
    row. *)
Definition is_str (x : string) (v : option Json) : bool :=
  match v with
  | Some (JStr y) => bool_decide (x = y)
  | _ => false
  end.

Definition matches (project_uuid pipeline_uuid : string) (row : gmap string Json) : bool :=
  is_str project_uuid (row !! "project_uuid") && is_str pipeline_uuid (row !! "uuid").

(** [Query.update(values)]: every matching row takes the given values.  A
    table has no order: the position of a row in the list carries no
    meaning. *)
Definition update_rows (project_uuid pipeline_uuid : string) (values : gmap string Json)
    (rows : list (gmap string Json)) : list (gmap string Json) :=
  (fun row => if matches project_uuid pipeline_uuid row then values ∪ row else row) <$> rows.

(** [Pipeline.put]: the number of rows the update matched is not looked
    at.  What the bulk update does with a body that is not an object is the
    library's doing and depends on its version; it is taken to raise here,
    and nothing below is stated about such bodies alone. *)
Definition Pipeline_put (fl : Faults) (project_uuid pipeline_uuid : string)
    (request_json : Json) (s : Store) : Handled :=
  let failed := MkResponse (message "Failed update operation.") 500 in
  match request_json with
  | JObj values =>
      match update_fault fl values with
      | Some _ => MkHandled failed s [EvCall LUpdate; EvRollback]
      | None =>
          let s' := MkStore (update_rows project_uuid pipeline_uuid values (pipelines s))
                            (runs s) (sessions s) in
          if can_commit fl s' then
            MkHandled (MkResponse (message "Pipeline was updated successfully.") 200)
                      s' [EvCall LUpdate; EvCommit]
          else MkHandled failed s [EvCall LUpdate; EvCommitFailed; EvRollback]
      end
  | _ => MkHandled failed s [EvRollback]
  end.

(** [Pipeline.get]: [one_or_none()] on the rows the filter keeps; no row
    aborts with 404, several rows raise out of the handler (there is no
    [try] around the query). *)
Definition Pipeline_get (project_uuid pipeline_uuid : string) (s : Store)
  : Err + Response :=
  match filter (fun row => matches project_uuid pipeline_uuid row = true) (pipelines s) with
  | [] => inr (MkResponse (message "Pipeline not found.") 404)
  | [row] => inr (MkResponse (JObj row) 200)
  | _ => inl (MkErr Raised "Multiple rows were found when one or none was required")
  end.

(** [PipelineList.get]: every pipeline, as a dict, under the key
    pipelines. *)
Definition PipelineList_get (s : Store) : Response :=
  MkResponse (JObj {[ "pipelines" := JArr (JObj <$> pipelines s) ]}) 200.

(** ** Migration 9eda3c5ad4f6

    Source: services/orchest-api/app/migrations/versions/9eda3c5ad4f6_.py.
    The database is seen as tables of column declarations and rows; a row
    holds the stored text of each column that is not NULL. *)
Module Migration.

Record Column := MkColumn {
  col_type : string;
  server_default : option string;
  nullable : bool
}.

Record Table := MkTable {
  columns : gmap string Column;
  rows : list (gmap string string)
}.

(** [op.add_column]: the table must exist and must not have the column; the
    rows already there take the server default, and a column that is NOT
    NULL without a default is refused when there are rows. *)
Definition add_column (table name : string) (col : Column) (db : gmap string Table)
  : Err + gmap string Table :=
  match db !! table with
  | None => inl (MkErr Raised "relation does not exist")
  | Some t =>
      match columns t !! name with
      | Some _ => inl (MkErr Raised "column already exists")
      | None =>
          match server_default col, rows t with
          | Some d, rs =>
              inr (<[ table := MkTable (<[ name := col ]> (columns t))
                                       ((fun r => <[ name := d ]> r) <$> rs) ]> db)
          | None, [] =>
              inr (<[ table := MkTable (<[ name := col ]> (columns t)) [] ]> db)
          | None, rs =>
              if nullable col
              then inr (<[ table := MkTable (<[ name := col ]> (columns t)) rs ]> db)
              else inl (MkErr Raised "column contains null values")
          end
      end
  end.

(** [op.drop_column]: the table and the column must exist; the column leaves
    the declaration and every row. *)
Definition drop_column (table name : string) (db : gmap string Table)
  : Err + gmap string Table :=
  match db !! table with
  | None => inl (MkErr Raised "relation does not exist")
  | Some t =>
      match columns t !! name with
      | None => inl (MkErr Raised "column does not exist")
      | Some _ =>
          inr (<[ table := MkTable (delete name (columns t))
                                   ((fun r => delete name r) <$> rows t) ]> db)
      end
  end.

Definition revision : string := "9eda3c5ad4f6".
Definition down_revision : string := "0fd04e9ab2c3".

(** [upgrade()]. *)
Definition upgrade (db : gmap string Table) : Err + gmap string Table :=
  add_column "pipeline_runs" "parameters_text_search_values"
             (MkColumn "JSONB" (Some "[]") false) db.

(** [downgrade()]. *)
Definition downgrade (db : gmap string Table) : Err + gmap string Table :=
  drop_column "pipeline_runs" "parameters_text_search_values" db.

End Migration.

(** ** Scenarios

    A pipeline with two non-terminal interactive runs, one finished run and
    an active session (scenario A of the specification), and the
    environments of scenario B (deleting the second run raises a store
    error) and of a refused commit. *)

Definition run_of (st : string) : Run := MkRun "proj" "pipe" st true.

Definition storeA : Store :=
  MkStore [ {[ "project_uuid" := JStr "proj"; "uuid" := JStr "pipe" ]} ]
          (<[ "r1" := run_of "PENDING" ]>
             (<[ "r2" := run_of "STARTED" ]> (<[ "r3" := run_of "SUCCESS" ]> ∅)))
          {[ ("proj", "pipe") ]}.

Definition extA : External := MkExternal {[ "r1"; "r2" ]} {[ ("proj", "pipe") ]}.

(** Scenario D: nothing to abort, nothing to stop. *)
Definition storeD : Store :=
  MkStore [ {[ "project_uuid" := JStr "proj"; "uuid" := JStr "pipe" ]} ] ∅ ∅.

Definition extD : External := MkExternal ∅ ∅.

Definition store_error : Err :=
  MkErr Raised "IntegrityError: update or delete on table pipeline_runs violates foreign key constraint".

Definition faultsB : Faults :=
  MkFaults true (fun _ => true)
           (fun l => if decide (l = LDeleteRun "r2") then Some store_error else None)
           (fun _ => None) (fun _ => None) (fun _ => None).

(** The store write of stop-session raises. *)
Definition faultsStop : Faults :=
  MkFaults true (fun _ => true)
           (fun l => if decide (l = LDeleteSession "proj" "pipe")
                     then Some store_error else None)
           (fun _ => None) (fun _ => None) (fun _ => None).




Definition freshA : Coord := fresh storeA.

Definition coordA_step : Coord :=
  (exec (DeletePipeline_transaction no_faults "proj" "pipe") (fresh storeA)).2.

Definition coordB : Coord := (exec (delete_body faultsB "proj" "pipe") (fresh storeA)).2.

(** A create request without env_variables, and one with it. *)
Definition body_without : gmap string Json :=
  {[ "project_uuid" := JStr "proj"; "uuid" := JStr "pipe2" ]}.

Definition body_with : gmap string Json :=
  {[ "project_uuid" := JStr "proj"; "uuid" := JStr "pipe3";
     "env_variables" := JObj {[ "KEY" := JStr "value" ]} ]}.

(** A store in which two rows carry the same identifiers, and an update
    that names no identifier column. *)
Definition storeDup : Store :=
  MkStore [ {[ "project_uuid" := JStr "proj"; "uuid" := JStr "pipe" ]};
            {[ "project_uuid" := JStr "proj"; "uuid" := JStr "other" ]};
            {[ "project_uuid" := JStr "proj"; "uuid" := JStr "pipe";
               "env_variables" := JObj ∅ ]} ] ∅ ∅.

Definition values_env : gmap string Json :=
  {[ "env_variables" := JObj {[ "KEY" := JStr "value" ]} ]}.

Definition rowA : gmap string Json :=
  {[ "project_uuid" := JStr "proj"; "uuid" := JStr "pipe" ]}.

(** A database before the migration, with two runs, and one after it, with
    a run whose new column holds something else than the default. *)
Definition tableA : Migration.Table :=
  Migration.MkTable
    {[ "uuid" := Migration.MkColumn "VARCHAR" None false;
       "status" := Migration.MkColumn "VARCHAR" None true ]}
    [ {[ "uuid" := "r1"; "status" := "PENDING" ]}; {[ "uuid" := "r2" ]} ].

Definition dbA : gmap string Migration.Table :=
  {[ "pipeline_runs" := tableA;
     "pipelines" := Migration.MkTable
                      {[ "uuid" := Migration.MkColumn "VARCHAR" None false ]} [] ]}.

Definition tableUp : Migration.Table :=
  Migration.MkTable
    {[ "uuid" := Migration.MkColumn "VARCHAR" None false;
       "parameters_text_search_values"
         := Migration.MkColumn "JSONB" (Some "[]") false ]}
    [ {[ "uuid" := "r1"; "parameters_text_search_values" := "[1, 2]" ]} ].

Definition dbUp : gmap string Migration.Table := {[ "pipeline_runs" := tableUp ]}.

(** * Properties *)

(** ** The coordinator, for any store and any operations *)

Section CoordinatorFacts.

Context {Store External Collateral Label : Type}.
Variable collateral_step : Collateral -> External -> Err + External.
Variable can_commit : Store -> bool.

#[local] Abbreviation Tx := (@Coordinator.Tx Store Collateral Label).
#[local] Abbreviation Coord := (@Coordinator.Coord Store Collateral Label).
#[local] Abbreviation Event := (@Coordinator.Event Collateral Label).

Implicit Types (t : Tx) (c : Coord) (evs : list Event).

Lemma registered_app evs1 evs2 :
  registered (evs1 ++ evs2) = registered evs1 ++ registered evs2.
Proof. apply omap_app. Qed.

Lemma ran_app evs1 evs2 : ran (evs1 ++ evs2) = ran evs1 ++ ran evs2.
Proof. apply omap_app. Qed.

Lemma calls_app evs1 evs2 : calls (evs1 ++ evs2) = calls evs1 ++ calls evs2.
Proof. apply omap_app. Qed.

Lemma commits_app evs1 evs2 : commits (evs1 ++ evs2) = commits evs1 + commits evs2.
Proof. unfold commits. by rewrite omap_app, length_app. Qed.

Lemma rollbacks_app evs1 evs2 :
  rollbacks (evs1 ++ evs2) = rollbacks evs1 + rollbacks evs2.
Proof. unfold rollbacks. by rewrite omap_app, length_app. Qed.

(** The transactional phase neither commits, nor rolls back, nor runs a
    collateral effect. *)
Lemma tx_events_quiet evs :
  Forall (fun ev => tx_event ev = true) evs →
  ran evs = [] ∧ commits evs = 0 ∧ rollbacks evs = 0.
Proof.
  induction 1 as [|ev evs Hev _ (IH1 & IH2 & IH3)]; [done|].
  destruct ev; simplify_eq/=; unfold commits, rollbacks in *; simpl; auto.
Qed.

(** The drain invokes the queue, entry by entry. *)
Lemma drain_events (q : list Collateral) (ext : External) :
  (drain (Label := Label) collateral_step q ext).1.2 = EvCollateral <$> q.
Proof.
  revert ext. induction q as [|x q IH]; intros ext; [done|].
  simpl. destruct (collateral_step x ext) as [e|ext1].
  - specialize (IH ext). destruct (drain _ q ext) as [[??]?].
    simpl in *. by rewrite IH.
  - specialize (IH ext1). destruct (drain _ q ext1) as [[??]?].
    simpl in *. by rewrite IH.
Qed.

Lemma ran_collateral (q : list Collateral) :
  ran (Label := Label) (EvCollateral <$> q) = q.
Proof. induction q as [|x q IH]; [done|]. unfold ran in *. cbn. by f_equal. Qed.


Lemma commits_collateral (q : list Collateral) :
  commits (Label := Label) (EvCollateral <$> q) = 0.
Proof. by induction q. Qed.


(** The queue is the list of registrations of the log: a transactional
    step only appends to both, whatever it does and however it ends. *)
Lemma exec_trace t c :
  ∃ evs, log (exec t c).2 = log c ++ evs ∧
         queue (exec t c).2 = queue c ++ registered evs ∧
         Forall (fun ev => tx_event ev = true) evs.
Proof.
  revert c. induction t as [spec|e|A q k IH|l f k IH|l op IHop k IHk]; intros c; simpl.
  - exists []. by rewrite !app_nil_r.
  - exists []. by rewrite !app_nil_r.
  - apply IH.
  - destruct (f (work c)) as [e|s'] eqn:Hf; simpl.
    + exists [EvCall l]. simpl. rewrite app_nil_r. auto.
    + destruct (IH (set_work s' (emit (EvCall l) c))) as (evs & Hl & Hq & Hall).
      exists (EvCall l :: evs). simpl in *. rewrite Hl, Hq.
      rewrite <- app_assoc. auto.
  - destruct (doomed c) as [e0|]; simpl.
    { exists []. by rewrite !app_nil_r. }
    destruct (IHop (emit (EvCall l) c)) as (evs1 & Hl1 & Hq1 & Hall1).
    destruct (exec op (emit (EvCall l) c)) as [[e|spec] c2]; simpl in *.
    + exists (EvCall l :: evs1). simpl. rewrite Hl1, Hq1, <- app_assoc. auto.
    + destruct (IHk (register spec c2)) as (evs2 & Hl2 & Hq2 & Hall2).
      destruct spec as [x|]; simpl in *.
      * exists (EvCall l :: evs1 ++ EvRegister x :: evs2).
        rewrite Hl2, Hq2, Hl1, Hq1. simpl.
        rewrite registered_app. simpl.
        rewrite <- !app_assoc. simpl. split_and!; [done|done|].
        constructor; [done|]. apply Forall_app. split; [done|]. by constructor.
      * exists (EvCall l :: evs1 ++ evs2).
        rewrite Hl2, Hq2, Hl1, Hq1. simpl.
        rewrite registered_app, <- !app_assoc. simpl. split_and!; [done|done|].
        constructor; [done|]. by apply Forall_app.
Qed.



End CoordinatorFacts.

(** ** DeletePipeline *)

Section DeletePipelineFacts.

Variable fl : Faults.

Implicit Types (c : Coord) (s : Store) (k : Tx) (rs : list (string * Run)).

Lemma exec_primitive l f k c :
  exec (primitive fl l f k) c =
  match fault fl l with
  | Some e => (inl e, emit (EvCall l) c)
  | None => exec k (set_work (f (work c)) (emit (EvCall l) c))
  end.
Proof. unfold primitive. simpl. by destruct (fault fl l). Qed.

Lemma exec_StopInteractiveSession p q c :
  exec (StopInteractiveSession fl p q) c =
  if bool_decide ((p, q) ∈ sessions (work c)) then
    match fault fl (LDeleteSession p q) with
    | Some e => (inl e, emit (EvCall (LDeleteSession p q)) c)
    | None => (inr (Some (CollStopSession p q)),
               set_work (delete_session p q (work c))
                        (emit (EvCall (LDeleteSession p q)) c))
    end
  else (inr None, c).
Proof.
  unfold StopInteractiveSession. simpl.
  destruct (bool_decide ((p, q) ∈ sessions (work c))); [|done].
  rewrite exec_primitive. by destruct (fault fl (LDeleteSession p q)).
Qed.

Lemma last_calls_snoc (evs : list Event) (l : Label) :
  last (calls (evs ++ [EvCall l])) = Some l.
Proof. rewrite calls_app. simpl. apply last_snoc. Qed.

(** The loop: what it leaves untouched, and how it ends.  Either every
    iteration went through and the continuation runs on, or a store
    primitive raised and its error is the result. *)
Lemma abort_and_delete_spec rs k c :
  doomed c = None →
  ∃ c1 evs,
    log c1 = log c ++ evs ∧
    pipelines (work c1) = pipelines (work c) ∧
    sessions (work c1) = sessions (work c) ∧
    (∀ u, u ∉ rs.*1 → runs (work c1) !! u = runs (work c) !! u) ∧
    (∀ l, l ∈ calls evs → l ∈ loop_calls rs.*1) ∧
    ((doomed c1 = None ∧
      exec (abort_and_delete fl rs k) c = exec k c1 ∧
      calls evs = loop_calls rs.*1 ∧
      registered evs = CollAbortRun <$> rs.*1 ∧
      (∀ u, u ∈ rs.*1 → runs (work c1) !! u = None))
     ∨
     (∃ e l, exec (abort_and_delete fl rs k) c = (inl e, c1) ∧
             fault fl l = Some e ∧ last (calls evs) = Some l)).
Proof.
  revert c. induction rs as [|[u r] rest IH]; intros c Hd.
  { exists c, []. rewrite app_nil_r. split_and!; try done.
    left. split_and!; try done. intros u Hu. by apply elem_of_nil in Hu. }
  cbn [abort_and_delete]. cbn [exec]. rewrite Hd.
  unfold AbortPipelineRun. rewrite exec_primitive.
  destruct (fault fl (LMarkAborted u)) as [e|] eqn:Hmark.
  { eexists _, [EvCall (LAbortPipelineRun u); EvCall (LMarkAborted u)].
    split_and!; last first.
    - right. exists e, (LMarkAborted u). split_and!; done.
    - intros l Hl. unfold loop_calls. simpl in *. set_solver.
    - done.
    - done.
    - done.
    - simpl. by rewrite <- app_assoc. }
  cbn [exec register]. rewrite exec_primitive.
  destruct (fault fl (LDeleteRun u)) as [e|] eqn:Hdel.
  { eexists _, [EvCall (LAbortPipelineRun u); EvCall (LMarkAborted u);
                EvRegister (CollAbortRun u); EvCall (LDeleteRun u)].
    split_and!; last first.
    - right. exists e, (LDeleteRun u). split_and!; done.
    - intros l Hl. unfold loop_calls. simpl in *. set_solver.
    - intros u' Hu'. simpl. rewrite lookup_alter_ne; [done|]. set_solver.
    - done.
    - done.
    - simpl. by rewrite <- !app_assoc. }
  match goal with |- context [exec (abort_and_delete fl rest k) ?c2] =>
    destruct (IH c2) as (c1 & evs & Hlog & Hpip & Hses & Hruns & Hin & Hend); [done|]
  end.
  simpl in Hlog, Hpip, Hses, Hruns.
  exists c1, ([EvCall (LAbortPipelineRun u); EvCall (LMarkAborted u);
               EvRegister (CollAbortRun u); EvCall (LDeleteRun u)] ++ evs).
  split_and!.
  - rewrite Hlog. by rewrite <- !app_assoc.
  - done.
  - done.
  - intros u' Hu'. rewrite fmap_cons, not_elem_of_cons in Hu'. destruct Hu' as [Hne Hu'].
    rewrite Hruns by done. rewrite lookup_delete_ne by done.
    by rewrite lookup_alter_ne.
  - intros l Hl. rewrite calls_app in Hl. unfold loop_calls in *. simpl in *.
    set_solver.
  - destruct Hend as [(Hd1 & Hex & Hcalls & Hreg & Hgone)|(e & l & Hex & Hf & Hlast)].
    + left. split_and!; [done|done| | |].
      * rewrite calls_app, Hcalls. done.
      * rewrite registered_app, Hreg. done.
      * intros u' Hu'. rewrite fmap_cons, elem_of_cons in Hu'.
        destruct (decide (u' ∈ rest.*1)) as [Hin'|Hnin]; [by apply Hgone|].
        destruct Hu' as [->|?]; [|done].
        rewrite Hruns by done. apply lookup_delete_eq.
    + right. exists e, l. split_and!; [done|done|].
      rewrite calls_app. simpl.
      destruct (calls evs) as [|l0 ls]; [done|]. simpl in *. done.
Qed.

(** The whole transactional step of delete-pipeline, started in a unit of
    work that is not doomed. *)
Lemma DeletePipeline_transaction_spec p q c :
  doomed c = None →
  let res := exec (DeletePipeline_transaction fl p q) c in
  ∃ evs,
    log res.2 = log c ++ evs ∧
    pipelines (work res.2) = pipelines (work c) ∧
    (∀ u, u ∉ (interactive_runs p q (work c)).*1 →
          runs (work res.2) !! u = runs (work c) !! u) ∧
    (∀ l, l ∈ calls evs → l ∈ transaction_calls p q (work c)) ∧
    match res.1 with
    | inr r =>
        r = None ∧ doomed res.2 = None ∧
        calls evs = transaction_calls p q (work c) ∧
        registered evs = transaction_collateral p q (work c) ∧
        sessions (work res.2) = sessions (work c) ∖ {[ (p, q) ]} ∧
        (∀ u, u ∈ (interactive_runs p q (work c)).*1 → runs (work res.2) !! u = None)
    | inl e => ∃ l, fault fl l = Some e ∧ last (calls evs) = Some l
    end.
Proof.
  intros Hd res. subst res. unfold DeletePipeline_transaction, transaction_calls,
    transaction_collateral. cbn [exec].
  set (rs := interactive_runs p q (work c)).
  destruct (abort_and_delete_spec rs
              (Delegate (LStopInteractiveSession p q)
                 (StopInteractiveSession fl p q) (Return None)) c Hd)
    as (c1 & evs & Hlog & Hpip & Hses & Hruns & Hin & Hend).
  destruct Hend as [(Hd1 & Hex & Hcalls & Hreg & Hgone)|(e & l & Hex & Hf & Hlast)];
    rewrite Hex; clear Hex.
  2:{ exists evs. simpl. split_and!; try done; [|by exists l].
      intros l' Hl'. apply elem_of_app. left. by apply Hin. }
  cbn [exec]. rewrite Hd1, exec_StopInteractiveSession. simpl work. rewrite Hses.
  destruct (bool_decide ((p, q) ∈ sessions (work c))) eqn:Hs.
  - destruct (fault fl (LDeleteSession p q)) as [e|] eqn:Hf.
    + exists (evs ++ [EvCall (LStopInteractiveSession p q); EvCall (LDeleteSession p q)]).
      simpl. rewrite Hlog, <- !app_assoc. split_and!; try done.
      * intros l Hl. rewrite calls_app, Hcalls in Hl. simpl in Hl. set_solver.
      * exists (LDeleteSession p q). split; [done|].
        rewrite calls_app. simpl. by rewrite last_app.
    + exists (evs ++ [EvCall (LStopInteractiveSession p q); EvCall (LDeleteSession p q);
                      EvRegister (CollStopSession p q)]).
      simpl. rewrite Hlog, <- !app_assoc. split_and!; try done.
      * intros l Hl. rewrite calls_app, Hcalls in Hl. simpl in Hl. set_solver.
      * rewrite calls_app, Hcalls. done.
      * rewrite registered_app, Hreg. done.
      * by rewrite Hses.
  - exists (evs ++ [EvCall (LStopInteractiveSession p q)]).
    simpl. rewrite Hlog, <- !app_assoc. split_and!; try done.
    + intros l Hl. rewrite calls_app, Hcalls in Hl. simpl in Hl. set_solver.
    + rewrite calls_app, Hcalls. done.
    + rewrite registered_app, Hreg. simpl. done.
    + rewrite Hses. apply bool_decide_eq_false in Hs. set_solver.
Qed.

Lemma exec_delete_body p q s :
  exec (delete_body fl p q) (fresh s) =
  match exec (DeletePipeline_transaction fl p q)
             (emit (EvCall (LDeletePipeline p q)) (fresh s)) with
  | (inr spec, c2) => (inr None, register spec c2)
  | (inl e, c2) => (inl e, doom e c2)
  end.
Proof.
  unfold delete_body. cbn [exec]. simpl doomed.
  by destruct (exec (DeletePipeline_transaction fl p q) _) as [[?|?] ?].
Qed.

(** The body of the delete scope, run in a fresh unit of work on [s]. *)
Lemma delete_body_spec p q s :
  let res := exec (delete_body fl p q) (fresh s) in
  ∃ evs,
    log res.2 = EvCall (LDeletePipeline p q) :: evs ∧
    queue res.2 = registered evs ∧
    Forall (fun ev => tx_event ev = true) evs ∧
    pipelines (work res.2) = pipelines s ∧
    (∀ u, u ∉ (interactive_runs p q s).*1 → runs (work res.2) !! u = runs s !! u) ∧
    (∀ l, l ∈ calls evs → l ∈ transaction_calls p q s) ∧
    match res.1 with
    | inr _ =>
        doomed res.2 = None ∧
        calls evs = transaction_calls p q s ∧
        registered evs = transaction_collateral p q s ∧
        sessions (work res.2) = sessions s ∖ {[ (p, q) ]} ∧
        (∀ u, u ∈ (interactive_runs p q s).*1 → runs (work res.2) !! u = None)
    | inl e => ∃ l, fault fl l = Some e ∧ last (calls evs) = Some l
    end.
Proof.
  intros res. subst res.
  destruct (exec_trace (delete_body fl p q) (fresh s)) as (evs0 & Hlog0 & Hq0 & Hall0).
  rewrite exec_delete_body in *.
  set (c0 := emit (EvCall (LDeletePipeline p q)) (fresh s)) in *.
  destruct (DeletePipeline_transaction_spec p q c0 eq_refl)
    as (evs & Hlog & Hpip & Hruns & Hin & Hend).
  destruct (exec (DeletePipeline_transaction fl p q) c0) as [[e|r] c1]; simpl in *.
  - exists evs. rewrite Hlog in Hlog0. subst evs0.
    apply Forall_cons in Hall0 as [_ Hall0]. simpl in Hq0. done.
  - destruct Hend as (-> & Hd1 & Hcalls & Hreg & Hses & Hgone). simpl in *.
    exists evs. rewrite Hlog in Hlog0. subst evs0.
    apply Forall_cons in Hall0 as [_ Hall0]. simpl in Hq0. done.
Qed.

(** Membership in the result of the query. *)
Lemma elem_of_interactive_runs p q s u run :
  (u, run) ∈ interactive_runs p q s ↔
  runs s !! u = Some run ∧ non_terminal p q (u, run).
Proof.
  unfold interactive_runs. rewrite list_elem_of_filter, elem_of_map_to_list. tauto.
Qed.

Lemma NoDup_interactive_runs p q s : NoDup (interactive_runs p q s).*1.
Proof.
  unfold interactive_runs.
  eapply sublist_NoDup; [apply (NoDup_fst_map_to_list (runs s))|].
  apply fmap_sublist, sublist_filter.
Qed.

(** C2: in every execution of the delete-pipeline scope in which a
    transactional step raises, nested ones included, the transaction is
    rolled back (the store and the external world are as before, nothing
    is committed), no collateral effect runs, and the caller observes the
    original error: the one the store primitive called last raised, as the
    error of the scope and as the text of the 500 response. *)
Theorem delete_failure_rolls_back p q s ext e c :
  can_begin fl = true →
  exec (delete_body fl p q) (fresh s) = (inl e, c) →
  let resp := (Pipeline_delete fl p q s ext).1 in
  let o := (Pipeline_delete fl p q s ext).2 in
  store o = s ∧ external o = ext ∧
  rollbacks (events o) = 1 ∧ commits (events o) = 0 ∧ ran (events o) = [] ∧
  result o = inl e ∧
  resp = MkResponse (message (str e)) 500 ∧
  ∃ l, fault fl l = Some e ∧ last (calls (events o)) = Some l.
Proof.
  intros Hbegin Hexec.
  destruct (delete_body_spec p q s) as (evs & Hlog & Hq & Hall & _ & _ & _ & Hend).
  rewrite Hexec in Hlog, Hend. simpl in Hlog, Hend. destruct Hend as (l & Hf & Hlast).
  unfold Pipeline_delete, delete_scope, scope, open, close.
  rewrite Hbegin, Hexec. simpl. rewrite Hlog.
  destruct (tx_events_quiet _ Hall) as (Hran & Hcom & Hroll).
  change (EvCall (LDeletePipeline p q) :: evs) with ([EvCall (LDeletePipeline p q)] ++ evs).
  rewrite !rollbacks_app, !commits_app, !ran_app, !calls_app, Hran, Hcom, Hroll.
  split_and!; try done. exists l. split; [done|].
  simpl. rewrite app_nil_r. destruct (calls evs); [done|]. done.
Qed.

(** C3: the transactional step of delete-pipeline selects exactly the
    interactive runs of the given project and pipeline whose status is
    PENDING or STARTED, each once; when it returns, the calls it made are,
    for each selected run in turn, the delegation to abort-run (with the
    store write of abort-run) and then the deletion of the run, followed by
    the delegation to stop-session.  The delegations went through the same
    coordinator: its queue grew by the collateral effect of the abort of
    each selected run, in that order, and then by the one of stop-session if
    there was a session.  The deletions took place: the record of every
    selected run is gone from the unit of work, and every other run is as
    it was. *)
Theorem DeletePipeline_transaction_order p q c r c' :
  doomed c = None →
  exec (DeletePipeline_transaction fl p q) c = (inr r, c') →
  (∀ u run, (u, run) ∈ interactive_runs p q (work c) ↔
            runs (work c) !! u = Some run ∧
            run_interactive run = true ∧
            run_project_uuid run = p ∧ run_pipeline_uuid run = q ∧
            (run_status run = "PENDING" ∨ run_status run = "STARTED")) ∧
  NoDup (interactive_runs p q (work c)).*1 ∧
  ∃ evs, log c' = log c ++ evs ∧
         calls evs =
           ((interactive_runs p q (work c)).*1 ≫=
              (fun u => [LAbortPipelineRun u; LMarkAborted u; LDeleteRun u])) ++
           LStopInteractiveSession p q ::
           (if bool_decide ((p, q) ∈ sessions (work c))
            then [LDeleteSession p q] else []) ∧
         registered evs =
           (CollAbortRun <$> (interactive_runs p q (work c)).*1) ++
           (if bool_decide ((p, q) ∈ sessions (work c))
            then [CollStopSession p q] else []) ∧
         queue c' = queue c ++ registered evs ∧
         (∀ u, u ∈ (interactive_runs p q (work c)).*1 → runs (work c') !! u = None) ∧
         (∀ u, u ∉ (interactive_runs p q (work c)).*1 →
               runs (work c') !! u = runs (work c) !! u).
Proof.
  intros Hd Hexec. split_and!.
  - intros u run. rewrite elem_of_interactive_runs. unfold non_terminal. simpl.
    rewrite !elem_of_cons, elem_of_nil. tauto.
  - apply NoDup_interactive_runs.
  - destruct (DeletePipeline_transaction_spec p q c Hd)
      as (evs & Hlog & _ & Hkeep & _ & Hend).
    destruct (exec_trace (DeletePipeline_transaction fl p q) c)
      as (evs0 & Hlog0 & Hq0 & _).
    rewrite Hexec in Hlog, Hkeep, Hend, Hlog0, Hq0. simpl in *.
    destruct Hend as (_ & _ & Hcalls & Hreg & _ & Hgone).
    rewrite Hlog in Hlog0. apply app_inv_head in Hlog0. subst evs0.
    exists evs. split_and!; done.
Qed.

(** C4: whatever the environment does, delete-pipeline leaves the pipeline
    rows of the store as they were: the pipeline is still there after the
    scope, committed or not. *)
Theorem delete_keeps_pipeline_rows p q s ext :
  pipelines (store (delete_scope fl p q s ext)) = pipelines s.
Proof.
  destruct (delete_body_spec p q s) as (evs & _ & _ & _ & Hpip & _).
  unfold delete_scope, scope, open, close.
  destruct (can_begin fl); [|done].
  destruct (exec (delete_body fl p q) (fresh s)) as [[e|r] c]; simpl in *; [done|].
  destruct (doomed c); [done|].
  destruct (can_commit fl (work c)); [|done].
  by destruct (drain _ (queue c) ext) as [[??]?].
Qed.

Lemma calls_collateral (q0 : list CollateralSpec) :
  calls (Label := Label) (EvCollateral <$> q0) = [].
Proof. by induction q0. Qed.

Lemma elem_of_loop_calls l uuids :
  l ∈ loop_calls uuids →
  ∃ u, u ∈ uuids ∧ (l = LAbortPipelineRun u ∨ l = LMarkAborted u ∨ l = LDeleteRun u).
Proof.
  unfold loop_calls. rewrite list_elem_of_bind. intros (u & Hl & Hu).
  exists u. split; [done|]. set_solver.
Qed.

(** The scope as a whole: the log is the call of the operation, the events
    of the transactional phase and a tail that holds no call; the tail runs
    either nothing or exactly what the transactional step registered. *)
Lemma delete_scope_spec p q s ext :
  let o := delete_scope fl p q s ext in
  ∃ evs tail,
    (events o = [] ∨ events o = EvCall (LDeletePipeline p q) :: evs ++ tail) ∧
    calls tail = [] ∧
    Forall (fun ev => tx_event ev = true) evs ∧
    (∀ l, l ∈ calls evs → l ∈ transaction_calls p q s) ∧
    (∀ u, u ∉ (interactive_runs p q s).*1 → runs (store o) !! u = runs s !! u) ∧
    (ran (events o) = [] ∨ ran (events o) = transaction_collateral p q s).
Proof.
  intros o. subst o.
  destruct (delete_body_spec p q s)
    as (evs & Hlog & Hq & Hall & Hpip & Hruns & Hin & Hend).
  destruct (tx_events_quiet _ Hall) as (Hran & _ & _).
  unfold delete_scope, scope, open, close.
  destruct (can_begin fl).
  2:{ exists [], []. simpl. split_and!; auto. intros l Hl. by apply elem_of_nil in Hl. }
  destruct (exec (delete_body fl p q) (fresh s)) as [[e|r] c]; simpl in *.
  { exists evs, [EvRollback]. rewrite Hlog. simpl.
    split_and!; auto. left. unfold ran in *. simpl.
    by rewrite omap_app, Hran. }
  destruct Hend as (Hd & Hcalls & Hreg & Hses & Hgone). rewrite Hd.
  destruct (can_commit fl (work c)).
  - pose proof (drain_events (Label := Label) (collateral_step fl) (queue c) ext) as Hdrain.
    destruct (drain (collateral_step fl) (queue c) ext) as [[ext' devs] fails].
    simpl in *. subst devs.
    exists evs, (EvCommit :: (EvCollateral <$> queue c)). rewrite Hlog. simpl.
    split_and!; auto.
    + apply calls_collateral.
    + right. unfold ran in *. simpl. rewrite omap_app, Hran. simpl.
      rewrite <- Hreg, <- Hq. apply ran_collateral.
  - exists evs, [EvCommitFailed]. rewrite Hlog. simpl.
    split_and!; auto. left. unfold ran in *. simpl.
    by rewrite omap_app, Hran.
Qed.

(** The loop when none of its store writes raises: it hands over to its
    continuation. *)
Lemma abort_and_delete_through rs k c :
  doomed c = None →
  (∀ u, u ∈ rs.*1 → fault fl (LMarkAborted u) = None ∧ fault fl (LDeleteRun u) = None) →
  ∃ c1 evs,
    exec (abort_and_delete fl rs k) c = exec k c1 ∧
    log c1 = log c ++ evs ∧
    calls evs = loop_calls rs.*1 ∧
    doomed c1 = None ∧
    sessions (work c1) = sessions (work c).
Proof.
  revert c. induction rs as [|[u r] rest IH]; intros c Hd Hok.
  { exists c, []. by rewrite app_nil_r. }
  destruct (Hok u) as [Hmark Hdel]; [rewrite fmap_cons; apply elem_of_cons; by left|].
  cbn [abort_and_delete]. cbn [exec]. rewrite Hd.
  unfold AbortPipelineRun. rewrite exec_primitive, Hmark.
  cbn [exec register]. rewrite exec_primitive, Hdel.
  match goal with |- context [exec (abort_and_delete fl rest k) ?c2] =>
    destruct (IH c2) as (c1 & evs & Hex & Hlog & Hcalls & Hd1 & Hses); [done| |]
  end.
  { intros u' Hu'. apply Hok. rewrite fmap_cons. apply elem_of_cons. by right. }
  simpl in Hlog, Hses.
  exists c1, ([EvCall (LAbortPipelineRun u); EvCall (LMarkAborted u);
               EvRegister (CollAbortRun u); EvCall (LDeleteRun u)] ++ evs).
  split_and!; [done| | |done|done].
  - rewrite Hlog. by rewrite <- !app_assoc.
  - rewrite calls_app, Hcalls. done.
Qed.

Lemma loop_calls_no_stop p q uuids :
  filter (fun l => l = LStopInteractiveSession p q) (loop_calls uuids) = [].
Proof.
  unfold loop_calls. induction uuids as [|u uuids IH]; [done|].
  cbn [mbind list_bind]. cbn [app].
  rewrite !filter_cons. by rewrite !decide_False.
Qed.

(** C5 (amended): whenever no store write of the loop raises, the
    transactional step of delete-pipeline delegates to stop-session exactly
    once, right after the calls of the loop, whether or not an interactive
    session exists for the pipeline and whether or not stop-session then
    raises: delete-pipeline itself never looks for a session. *)
Theorem stop_session_always_delegated p q c :
  doomed c = None →
  (∀ u, u ∈ (interactive_runs p q (work c)).*1 →
        fault fl (LMarkAborted u) = None ∧ fault fl (LDeleteRun u) = None) →
  ∃ evs, log (exec (DeletePipeline_transaction fl p q) c).2 = log c ++ evs ∧
         calls evs =
           ((interactive_runs p q (work c)).*1 ≫=
              (fun u => [LAbortPipelineRun u; LMarkAborted u; LDeleteRun u])) ++
           LStopInteractiveSession p q ::
           (if bool_decide ((p, q) ∈ sessions (work c))
            then [LDeleteSession p q] else []) ∧
         length (filter (fun l => l = LStopInteractiveSession p q) (calls evs)) = 1.
Proof.
  intros Hd Hok. unfold DeletePipeline_transaction. cbn [exec].
  destruct (abort_and_delete_through (interactive_runs p q (work c))
              (Delegate (LStopInteractiveSession p q)
                 (StopInteractiveSession fl p q) (Return None)) c Hd Hok)
    as (c1 & evs & -> & Hlog & Hcalls & Hd1 & Hses).
  fold (loop_calls (interactive_runs p q (work c)).*1).
  assert (∀ post,
            filter (fun l => l = LStopInteractiveSession p q) post = [] →
            length (filter (fun l => l = LStopInteractiveSession p q)
                      (loop_calls (interactive_runs p q (work c)).*1 ++
                       LStopInteractiveSession p q :: post)) = 1) as Hone.
  { intros post Hpost.
    by rewrite filter_app, loop_calls_no_stop, filter_cons, decide_True, Hpost. }
  cbn [exec]. rewrite Hd1, exec_StopInteractiveSession. simpl work. rewrite Hses.
  destruct (bool_decide ((p, q) ∈ sessions (work c))).
  - destruct (fault fl (LDeleteSession p q)) as [e|].
    + exists (evs ++ [EvCall (LStopInteractiveSession p q); EvCall (LDeleteSession p q)]).
      simpl. rewrite Hlog, <- !app_assoc, calls_app, Hcalls. simpl.
      split_and!; [done|done|]. apply Hone. by rewrite filter_cons, decide_False.
    + exists (evs ++ [EvCall (LStopInteractiveSession p q); EvCall (LDeleteSession p q);
                      EvRegister (CollStopSession p q)]).
      simpl. rewrite Hlog, <- !app_assoc, calls_app, Hcalls. simpl.
      split_and!; [done|done|]. apply Hone. by rewrite filter_cons, decide_False.
  - exists (evs ++ [EvCall (LStopInteractiveSession p q)]).
    simpl. rewrite Hlog, <- !app_assoc, calls_app, Hcalls. simpl.
    split_and!; [done|done|]. by apply Hone.
Qed.

(** C7: the collateral step of delete-pipeline itself does nothing, and
    every collateral effect that runs in a delete-pipeline scope belongs to
    a delegated operation: the abort of a selected run, or the stop of the
    session of the pipeline. *)
Theorem delete_collateral_is_delegated p q s ext :
  (∀ ext0, DeletePipeline_collateral ext0 = ext0) ∧
  ∀ x, x ∈ ran (events (delete_scope fl p q s ext)) →
       (∃ u run, x = CollAbortRun u ∧ (u, run) ∈ interactive_runs p q s) ∨
       (x = CollStopSession p q ∧ (p, q) ∈ sessions s).
Proof.
  split; [done|]. intros x Hx.
  destruct (delete_scope_spec p q s ext) as (_ & _ & _ & _ & _ & _ & _ & [Hran|Hran]);
    rewrite Hran in Hx; [by apply elem_of_nil in Hx|].
  unfold transaction_collateral in Hx. apply elem_of_app in Hx as [Hx|Hx].
  - left. apply list_elem_of_fmap in Hx as (u & -> & Hu).
    apply list_elem_of_fmap in Hu as ([u' run] & -> & Hu). by exists u', run.
  - right. case_bool_decide; [|by apply elem_of_nil in Hx].
    apply list_elem_of_singleton in Hx. done.
Qed.

(** C9: a run whose status is neither PENDING nor STARTED is never aborted
    and never deleted by delete-pipeline, and is in the store, unchanged,
    after the scope. *)
Theorem delete_keeps_terminal_runs p q s ext u run :
  runs s !! u = Some run →
  run_status run ≠ "PENDING" →
  run_status run ≠ "STARTED" →
  let o := delete_scope fl p q s ext in
  runs (store o) !! u = Some run ∧
  (LAbortPipelineRun u ∉ calls (events o)) ∧
  (LMarkAborted u ∉ calls (events o)) ∧
  (LDeleteRun u ∉ calls (events o)).
Proof.
  intros Hrun Hpending Hstarted o. subst o.
  assert (u ∉ (interactive_runs p q s).*1) as Hnot.
  { intros ([u' run'] & -> & Hin)%list_elem_of_fmap.
    apply elem_of_interactive_runs in Hin as [Hrun' (_ & _ & _ & Hst)].
    simpl in *. simplify_eq. set_solver. }
  destruct (delete_scope_spec p q s ext)
    as (evs & tail & Hev & Htail & _ & Hin & Hruns & _).
  split; [by rewrite Hruns|].
  assert (∀ l, l ∈ calls (events (delete_scope fl p q s ext)) →
               l = LDeletePipeline p q ∨ l ∈ transaction_calls p q s) as Hcalls.
  { intros l. destruct Hev as [->| ->]; [by intros ?%elem_of_nil|].
    change (EvCall (LDeletePipeline p q) :: evs ++ tail)
      with ([EvCall (LDeletePipeline p q)] ++ evs ++ tail).
    rewrite !calls_app, Htail, app_nil_r. simpl.
    rewrite elem_of_cons. intros [?|?]; auto. }
  assert (∀ l, (l = LAbortPipelineRun u ∨ l = LMarkAborted u ∨ l = LDeleteRun u) →
               l ∉ calls (events (delete_scope fl p q s ext))) as Hno.
  { intros l Hl Hc. apply Hcalls in Hc as [->|Hc]; [naive_solver|].
    unfold transaction_calls in Hc. apply elem_of_app in Hc as [Hc|Hc].
    - apply elem_of_loop_calls in Hc as (u' & Hu' & Hl').
      assert (u' = u) as -> by naive_solver. done.
    - case_bool_decide; set_solver. }
  split_and!; apply Hno; auto.
Qed.

End DeletePipelineFacts.

(** ** The create and update endpoints *)

Section EndpointFacts.

Variable fl : Faults.

Lemma update_rows_no_match p q values (rows : list (gmap string Json)) :
  (∀ row, row ∈ rows → matches p q row = false) →
  update_rows p q values rows = rows.
Proof.
  unfold update_rows. induction rows as [|row rows IH]; intros Hno; [done|].
  rewrite fmap_cons, IH.
  - rewrite Hno; [done|]. apply elem_of_cons. by left.
  - intros row' Hin. apply Hno, elem_of_cons. by right.
Qed.

(** C8: a create request whose body lacks the key env_variables stores the
    pipeline with env_variables equal to the empty mapping; when the key is
    there its value is used unchanged; the other keys are the ones of the
    body in both cases.  The stored row is also the body of the 201
    response. *)
Theorem post_defaults_env_variables (d : gmap string Json) (s : Store) :
  add_fault fl (set_env_variables d) = None →
  can_commit fl (add_pipeline (set_env_variables d) s) = true →
  let h := PipelineList_post fl (JObj d) s in
  ∃ row,
    pipelines (stored h) = pipelines s ++ [row] ∧
    response h = MkResponse (JObj row) 201 ∧
    (d !! "env_variables" = None → row !! "env_variables" = Some (JObj ∅)) ∧
    (∀ v, d !! "env_variables" = Some v → row !! "env_variables" = Some v ∧ row = d) ∧
    (∀ k, k ≠ "env_variables" → row !! k = d !! k).
Proof.
  intros Hadd Hcommit h. subst h. unfold PipelineList_post.
  rewrite Hadd, Hcommit. exists (set_env_variables d). unfold set_env_variables.
  split_and!; [done|done| | |].
  - intros ->. apply lookup_insert_eq.
  - intros v Hv. rewrite Hv. simpl. split; [apply lookup_insert_eq|].
    by apply insert_id.
  - intros k Hk. by rewrite lookup_insert_ne.
Qed.

(** C10: an update request whose identifiers match no stored pipeline, in an
    environment that raises nothing, still commits and answers 200 with the
    success message; the store is as before. *)
Theorem put_without_match_succeeds p q (values : gmap string Json) (s : Store) :
  (∀ row, row ∈ pipelines s → matches p q row = false) →
  update_fault fl values = None →
  can_commit fl s = true →
  Pipeline_put fl p q (JObj values) s =
  MkHandled (MkResponse (message "Pipeline was updated successfully.") 200)
            s [EvCall LUpdate; EvCommit].
Proof.
  intros Hno Hupd Hcommit. unfold Pipeline_put.
  rewrite Hupd, (update_rows_no_match _ _ _ _ Hno).
  destruct s as [ps rs ss]. simpl in *. by rewrite Hcommit.
Qed.

End EndpointFacts.

(** ** Scenarios *)

(** C6: when deleting the second run raises a store error, the body of the
    500 response of [Pipeline.delete] is the text of that error, word for
    word. *)
Theorem delete_returns_error_text_verbatim :
  (Pipeline_delete faultsB "proj" "pipe" storeA extA).1 =
  MkResponse
    (message "IntegrityError: update or delete on table pipeline_runs violates foreign key constraint")
    500.
Proof. vm_compute. reflexivity. Qed.



Lemma delete_failure_rolls_back_witness :
  can_begin faultsB = true ∧
  exec (delete_body faultsB "proj" "pipe") (fresh storeA) = (inl store_error, coordB) ∧
  let resp := (Pipeline_delete faultsB "proj" "pipe" storeA extA).1 in
  let o := (Pipeline_delete faultsB "proj" "pipe" storeA extA).2 in
  store o = storeA ∧ external o = extA ∧
  rollbacks (events o) = 1 ∧ commits (events o) = 0 ∧ ran (events o) = [] ∧
  result o = inl store_error ∧
  resp = MkResponse (message (str store_error)) 500 ∧
  ∃ l, fault faultsB l = Some store_error ∧ last (calls (events o)) = Some l.
Proof.
  assert (exec (delete_body faultsB "proj" "pipe") (fresh storeA)
          = (inl store_error, coordB)) as H by (vm_compute; reflexivity).
  split; [reflexivity|]. split; [exact H|].
  exact (delete_failure_rolls_back faultsB "proj" "pipe" storeA extA
           store_error coordB eq_refl H).
Defined.

Lemma DeletePipeline_transaction_order_witness :
  doomed freshA = None ∧
  exec (DeletePipeline_transaction no_faults "proj" "pipe") freshA
    = (inr None, coordA_step) ∧
  ∃ evs, log coordA_step = log freshA ++ evs ∧
         calls evs =
           ((interactive_runs "proj" "pipe" (work freshA)).*1 ≫=
              (fun u => [LAbortPipelineRun u; LMarkAborted u; LDeleteRun u])) ++
           LStopInteractiveSession "proj" "pipe" ::
           (if bool_decide (("proj", "pipe") ∈ sessions (work freshA))
            then [LDeleteSession "proj" "pipe"] else []) ∧
         registered evs =
           (CollAbortRun <$> (interactive_runs "proj" "pipe" (work freshA)).*1) ++
           (if bool_decide (("proj", "pipe") ∈ sessions (work freshA))
            then [CollStopSession "proj" "pipe"] else []) ∧
         queue coordA_step = queue freshA ++ registered evs ∧
         (∀ u, u ∈ (interactive_runs "proj" "pipe" (work freshA)).*1 →
               runs (work coordA_step) !! u = None) ∧
         (∀ u, u ∉ (interactive_runs "proj" "pipe" (work freshA)).*1 →
               runs (work coordA_step) !! u = runs (work freshA) !! u).
Proof.
  assert (exec (DeletePipeline_transaction no_faults "proj" "pipe") freshA
          = (inr None, coordA_step)) as H by (vm_compute; reflexivity).
  split; [reflexivity|]. split; [exact H|].
  exact (proj2 (proj2 (DeletePipeline_transaction_order no_faults "proj" "pipe"
                         freshA None coordA_step eq_refl H))).
Defined.

(** C5 as stated fails: in scenario D no interactive session exists, and
    the log of the scope still holds the delegation to stop-session. *)
Lemma stop_session_delegated_without_session :
  (("proj", "pipe") ∉ sessions storeD) ∧
  LStopInteractiveSession "proj" "pipe"
    ∈ calls (events (delete_scope no_faults "proj" "pipe" storeD extD)).
Proof.
  split.
  - apply not_elem_of_empty.
  - vm_compute. apply elem_of_cons. right. apply elem_of_cons. by left.
Qed.

Lemma stop_session_always_delegated_witness :
  doomed freshA = None ∧
  (∀ u, u ∈ (interactive_runs "proj" "pipe" (work freshA)).*1 →
        fault faultsStop (LMarkAborted u) = None ∧
        fault faultsStop (LDeleteRun u) = None) ∧
  (exec (DeletePipeline_transaction faultsStop "proj" "pipe") freshA).1
    = inl store_error ∧
  ∃ evs,
    log (exec (DeletePipeline_transaction faultsStop "proj" "pipe") freshA).2
      = log freshA ++ evs ∧
    calls evs =
      ((interactive_runs "proj" "pipe" (work freshA)).*1 ≫=
         (fun u => [LAbortPipelineRun u; LMarkAborted u; LDeleteRun u])) ++
      LStopInteractiveSession "proj" "pipe" ::
      (if bool_decide (("proj", "pipe") ∈ sessions (work freshA))
       then [LDeleteSession "proj" "pipe"] else []) ∧
    length (filter (fun l => l = LStopInteractiveSession "proj" "pipe") (calls evs)) = 1.
Proof.
  assert (∀ u, u ∈ (interactive_runs "proj" "pipe" (work freshA)).*1 →
               fault faultsStop (LMarkAborted u) = None ∧
               fault faultsStop (LDeleteRun u) = None) as H
    by (intros u _; split; reflexivity).
  split; [reflexivity|]. split; [exact H|]. split; [vm_compute; reflexivity|].
  exact (stop_session_always_delegated faultsStop "proj" "pipe" freshA eq_refl H).
Defined.

Lemma post_defaults_env_variables_witness :
  add_fault no_faults (set_env_variables body_without) = None ∧
  can_commit no_faults (add_pipeline (set_env_variables body_without) storeD) = true ∧
  body_without !! "env_variables" = None ∧
  let h := PipelineList_post no_faults (JObj body_without) storeD in
  ∃ row,
    pipelines (stored h) = pipelines storeD ++ [row] ∧
    response h = MkResponse (JObj row) 201 ∧
    (body_without !! "env_variables" = None → row !! "env_variables" = Some (JObj ∅)) ∧
    (∀ v, body_without !! "env_variables" = Some v →
          row !! "env_variables" = Some v ∧ row = body_without) ∧
    (∀ k, k ≠ "env_variables" → row !! k = body_without !! k).
Proof.
  split; [reflexivity|]. split; [reflexivity|]. split; [vm_compute; reflexivity|].
  exact (post_defaults_env_variables no_faults body_without storeD eq_refl eq_refl).
Defined.

Lemma delete_keeps_terminal_runs_witness :
  runs storeA !! "r3" = Some (run_of "SUCCESS") ∧
  run_status (run_of "SUCCESS") ≠ "PENDING" ∧
  run_status (run_of "SUCCESS") ≠ "STARTED" ∧
  let o := delete_scope no_faults "proj" "pipe" storeA extA in
  runs (store o) !! "r3" = Some (run_of "SUCCESS") ∧
  (LAbortPipelineRun "r3" ∉ calls (events o)) ∧
  (LMarkAborted "r3" ∉ calls (events o)) ∧
  (LDeleteRun "r3" ∉ calls (events o)).
Proof.
  assert (runs storeA !! "r3" = Some (run_of "SUCCESS")) as H1
    by (vm_compute; reflexivity).
  assert (run_status (run_of "SUCCESS") ≠ "PENDING") as H2 by discriminate.
  assert (run_status (run_of "SUCCESS") ≠ "STARTED") as H3 by discriminate.
  split; [exact H1|]. split; [exact H2|]. split; [exact H3|].
  exact (delete_keeps_terminal_runs no_faults "proj" "pipe" storeA extA
           "r3" (run_of "SUCCESS") H1 H2 H3).
Defined.

Lemma put_without_match_succeeds_witness :
  (∀ row, row ∈ pipelines storeA → matches "proj" "other" row = false) ∧
  update_fault no_faults body_without = None ∧
  can_commit no_faults storeA = true ∧
  Pipeline_put no_faults "proj" "other" (JObj body_without) storeA =
  MkHandled (MkResponse (message "Pipeline was updated successfully.") 200)
            storeA [EvCall LUpdate; EvCommit].
Proof.
  assert (∀ row, row ∈ pipelines storeA → matches "proj" "other" row = false) as H.
  { intros row Hin. apply list_elem_of_singleton in Hin. subst row.
    vm_compute. reflexivity. }
  split; [exact H|]. split; [reflexivity|]. split; [reflexivity|].
  exact (put_without_match_succeeds no_faults "proj" "other" body_without storeA
           H eq_refl eq_refl).
Defined.

(** * Further properties of the endpoints *)

(** ** Create, fetch and update *)

Section EndpointExtras.

Variable fl : Faults.

Implicit Types (d values row : gmap string Json) (s : Store) (req : Json).

Lemma filter_matches_nil p q (rs : list (gmap string Json)) :
  (∀ row, row ∈ rs → matches p q row = false) →
  filter (fun row => matches p q row = true) rs = [].
Proof.
  induction rs as [|row rs IH]; intros Hno; [done|].
  rewrite filter_cons. destruct (decide (matches p q row = true)) as [Hm|_].
  - rewrite Hno in Hm; [done|]. apply elem_of_cons. by left.
  - apply IH. intros row' Hin. apply Hno, elem_of_cons. by right.
Qed.

Lemma filter_matches_nil_inv p q (rs : list (gmap string Json)) row :
  filter (fun row => matches p q row = true) rs = [] →
  row ∈ rs → matches p q row = false.
Proof.
  intros Hnil Hin. destruct (matches p q row) eqn:Hm; [|done].
  assert (row ∈ filter (fun row => matches p q row = true) rs) as Hf
    by by apply list_elem_of_filter.
  rewrite Hnil in Hf. by apply elem_of_nil in Hf.
Qed.

Lemma matches_spec p q row :
  matches p q row = true ↔
  row !! "project_uuid" = Some (JStr p) ∧ row !! "uuid" = Some (JStr q).
Proof.
  unfold matches, is_str. rewrite andb_true_iff.
  destruct (row !! "project_uuid") as [[| | |x| |]|], (row !! "uuid") as [[| | |y| |]|];
    try (split; [intros [??]|intros [??]]; discriminate).
  rewrite !bool_decide_eq_true. split.
  - by intros [-> ->].
  - by intros [[= ->] [= ->]].
Qed.

(** X1: whatever the request and the environment, create, as served with
    its marshalling decorator, either answers 201, which takes a body that
    is an object, a keyword dict the model accepts and an accepted commit,
    or it answers 500 with one and the same body, the marshalling of the
    fixed message "Pipeline creation failed.", leaves the store as it was
    and ends with a rollback; the answer does not depend on the error. *)
Theorem post_fails_with_fixed_message (marshal : Json -> Json) req s :
  let h := PipelineList_post fl req s in
  let answer := PipelineList_post_answer marshal fl req s in
  (status answer = 201%Z ∧
   ∃ d, req = JObj d ∧ add_fault fl (set_env_variables d) = None ∧
        can_commit fl (add_pipeline (set_env_variables d) s) = true) ∨
  (answer = MkResponse (marshal (message "Pipeline creation failed.")) 500 ∧
   stored h = s ∧ last (trace h) = Some EvRollback).
Proof.
  intros h answer. subst h answer.
  unfold PipelineList_post_answer, marshal_with, PipelineList_post.
  destruct req as [|b|z|t|l|d]; try (right; done).
  destruct (add_fault fl (set_env_variables d)) eqn:Hadd; [right; done|].
  destruct (can_commit fl (add_pipeline (set_env_variables d) s)) eqn:Hc; [|right; done].
  left. split; [done|]. by exists d.
Qed.

(** X2: create never changes what is already stored: the pipelines that
    were there stay, in place, at most one row is appended after them, and
    runs and sessions are untouched. *)
Theorem post_keeps_existing_rows req s :
  let h := PipelineList_post fl req s in
  pipelines s `prefix_of` pipelines (stored h) ∧
  (length (pipelines (stored h)) ≤ S (length (pipelines s)))%nat ∧
  runs (stored h) = runs s ∧ sessions (stored h) = sessions s.
Proof.
  intros h. subst h. unfold PipelineList_post.
  assert (pipelines s `prefix_of` pipelines s ∧
          (length (pipelines s) ≤ S (length (pipelines s)))%nat ∧
          runs s = runs s ∧ sessions s = sessions s) as Hsame
    by (split_and!; [reflexivity|lia|done|done]).
  destruct req as [|b|z|t|l|d]; try exact Hsame.
  destruct (add_fault fl (set_env_variables d)); [exact Hsame|].
  destruct (can_commit fl (add_pipeline (set_env_variables d) s)); [|exact Hsame].
  simpl. split_and!; [by apply prefix_app_r|rewrite length_app; simpl; lia|done|done].
Qed.

(** X3: a pipeline that was created always has the key env_variables: the
    body of every 201 answer is an object with that key, and it is the row
    stored last. *)
Theorem post_created_has_env_variables req s :
  let h := PipelineList_post fl req s in
  status (response h) = 201%Z →
  ∃ row, body (response h) = JObj row ∧
         is_Some (row !! "env_variables") ∧
         last (pipelines (stored h)) = Some row.
Proof.
  intros h. subst h. unfold PipelineList_post.
  destruct req as [|b|z|t|l|d]; try done.
  destruct (add_fault fl (set_env_variables d)); [done|].
  destruct (can_commit fl (add_pipeline (set_env_variables d) s)); [|done].
  intros _. exists (set_env_variables d). simpl. split_and!; [done| |apply last_snoc].
  unfold set_env_variables. rewrite lookup_insert_eq. by eexists.
Qed.

(** X4: create then fetch: when the body names the project and the
    pipeline as strings, no stored pipeline has these identifiers and the
    environment raises nothing, fetching them afterwards answers 200 with
    the row that was stored. *)
Theorem post_then_get d s p q :
  d !! "project_uuid" = Some (JStr p) →
  d !! "uuid" = Some (JStr q) →
  (∀ row, row ∈ pipelines s → matches p q row = false) →
  add_fault fl (set_env_variables d) = None →
  can_commit fl (add_pipeline (set_env_variables d) s) = true →
  let h := PipelineList_post fl (JObj d) s in
  response h = MkResponse (JObj (set_env_variables d)) 201 ∧
  Pipeline_get p q (stored h) = inr (MkResponse (JObj (set_env_variables d)) 200).
Proof.
  intros Hp Hq Hno Hadd Hc h. subst h. unfold PipelineList_post.
  rewrite Hadd, Hc. split; [done|]. unfold Pipeline_get. simpl.
  rewrite filter_app, (filter_matches_nil _ _ _ Hno). simpl.
  rewrite filter_cons, decide_True; [done|].
  apply matches_spec. unfold set_env_variables.
  by rewrite !lookup_insert_ne.
Qed.

(** X5: fetch answers 404 "Pipeline not found." exactly when no stored
    pipeline has the given identifiers. *)
Theorem get_not_found_iff p q s :
  Pipeline_get p q s = inr (MkResponse (message "Pipeline not found.") 404) ↔
  ∀ row, row ∈ pipelines s → matches p q row = false.
Proof.
  unfold Pipeline_get. split.
  - intros Hget row Hin.
    destruct (filter _ (pipelines s)) as [|r1 [|r2 rest]] eqn:Hf; try done.
    by eapply filter_matches_nil_inv.
  - intros Hno. by rewrite (filter_matches_nil _ _ _ Hno).
Qed.

(** X6: a fetch that answers 200 returns a stored row that carries the
    requested identifiers, and no other stored row carries them. *)
Theorem get_found_is_the_match p q s b :
  Pipeline_get p q s = inr (MkResponse b 200) →
  ∃ row, b = JObj row ∧ row ∈ pipelines s ∧
         row !! "project_uuid" = Some (JStr p) ∧ row !! "uuid" = Some (JStr q) ∧
         ∀ row', row' ∈ pipelines s → matches p q row' = true → row' = row.
Proof.
  unfold Pipeline_get.
  destruct (filter _ (pipelines s)) as [|r1 [|r2 rest]] eqn:Hf; try done.
  intros [= <-]. exists r1.
  assert (r1 ∈ filter (fun row => matches p q row = true) (pipelines s)) as Hin
    by (rewrite Hf; apply elem_of_cons; by left).
  apply list_elem_of_filter in Hin as [Hm Hin].
  apply matches_spec in Hm as [Hp Hq]. split_and!; try done.
  intros row' Hin' Hm'.
  assert (row' ∈ filter (fun row => matches p q row = true) (pipelines s)) as Hf'
    by by apply list_elem_of_filter.
  rewrite Hf in Hf'. by apply list_elem_of_singleton in Hf'.
Qed.

(** X7: fetch does not pick one of several rows: when two stored rows
    carry the identifiers, it raises instead of answering. *)
Theorem get_raises_on_duplicates p q s i j row1 row2 :
  i ≠ j →
  pipelines s !! i = Some row1 → pipelines s !! j = Some row2 →
  matches p q row1 = true → matches p q row2 = true →
  ∃ e, Pipeline_get p q s = inl e.
Proof.
  intros Hij Hi Hj H1 H2. unfold Pipeline_get.
  destruct (filter _ (pipelines s)) as [|r1 [|r2 rest]] eqn:Hf; [| |by eexists].
  - exfalso. apply (filter_matches_nil_inv p q _ row1) in Hf; [congruence|].
    by eapply list_elem_of_lookup_2.
  - exfalso.
    assert (length (filter (fun row => matches p q row = true) (pipelines s)) = 1)
      as Hlen by by rewrite Hf.
    clear Hf. revert i j Hij Hi Hj Hlen.
    induction (pipelines s) as [|r rs IH]; intros i j Hij Hi Hj Hlen; [done|].
    rewrite filter_cons in Hlen.
    destruct i as [|i], j as [|j]; simpl in *; simplify_eq.
    + rewrite decide_True in Hlen by done. simpl in Hlen.
      assert (row2 ∈ filter (fun row => matches p q row = true) rs) as Hin
        by (apply list_elem_of_filter; split; [done|by eapply list_elem_of_lookup_2]).
      destruct (filter _ rs); [by apply elem_of_nil in Hin|done].
    + rewrite decide_True in Hlen by done. simpl in Hlen.
      assert (row1 ∈ filter (fun row => matches p q row = true) rs) as Hin
        by (apply list_elem_of_filter; split; [done|by eapply list_elem_of_lookup_2]).
      destruct (filter _ rs); [by apply elem_of_nil in Hin|done].
    + destruct (decide (matches p q r = true)).
      * simpl in Hlen.
        assert (row1 ∈ filter (fun row => matches p q row = true) rs) as Hin
          by (apply list_elem_of_filter; split; [done|by eapply list_elem_of_lookup_2]).
        destruct (filter _ rs); [by apply elem_of_nil in Hin|done].
      * eapply (IH i j); eauto.
Qed.

Lemma update_rows_idempotent p q values (rs : list (gmap string Json)) :
  update_rows p q values (update_rows p q values rs) = update_rows p q values rs.
Proof.
  unfold update_rows. rewrite <- list_fmap_compose. apply list_fmap_ext.
  intros _ row _. simpl.
  destruct (matches p q row) eqn:Hm; [|by rewrite Hm].
  destruct (matches p q (values ∪ row)); [|done].
  apply map_eq. intros k. rewrite !lookup_union.
  by destruct (values !! k), (row !! k).
Qed.

Lemma update_rows_keeps_matches p q values (rs : list (gmap string Json)) :
  values !! "project_uuid" = None → values !! "uuid" = None →
  filter (fun row => matches p q row = true) (update_rows p q values rs) =
  (fun row => values ∪ row) <$> filter (fun row => matches p q row = true) rs.
Proof.
  intros Hp Hq. unfold update_rows. induction rs as [|row rs IH]; [done|].
  rewrite fmap_cons, !filter_cons, IH.
  destruct (matches p q row) eqn:Hm; simpl.
  - assert (matches p q (values ∪ row) = true) as Hm'.
    { apply matches_spec in Hm as [H1 H2]. apply matches_spec.
      by rewrite !lookup_union_r. }
    by rewrite !decide_True.
  - rewrite Hm. by rewrite !decide_False.
Qed.

(** X8: an update that goes through answers 200, keeps the number of
    pipelines and leaves runs and sessions alone.  Every row with other
    identifiers is still stored as it was; every row with the given
    identifiers is stored with each of the given values while its other
    columns stay; and nothing else is stored: each row afterwards comes from
    a row before in one of these two ways. *)
Theorem put_updates_matching_rows p q values s :
  update_fault fl values = None →
  can_commit fl (MkStore (update_rows p q values (pipelines s)) (runs s) (sessions s))
    = true →
  let h := Pipeline_put fl p q (JObj values) s in
  status (response h) = 200%Z ∧
  length (pipelines (stored h)) = length (pipelines s) ∧
  runs (stored h) = runs s ∧ sessions (stored h) = sessions s ∧
  (∀ row, row ∈ pipelines s → matches p q row = false →
          row ∈ pipelines (stored h)) ∧
  (∀ row, row ∈ pipelines s → matches p q row = true →
          ∃ row', row' ∈ pipelines (stored h) ∧
                  (∀ k v, values !! k = Some v → row' !! k = Some v) ∧
                  (∀ k, values !! k = None → row' !! k = row !! k)) ∧
  (∀ row', row' ∈ pipelines (stored h) →
           ∃ row, row ∈ pipelines s ∧
                  row' = if matches p q row then values ∪ row else row).
Proof.
  intros Hupd Hc h. subst h. unfold Pipeline_put. rewrite Hupd, Hc. simpl.
  unfold update_rows.
  split_and!; [done|by rewrite length_fmap|done|done| | |].
  - intros row Hin Hm. apply list_elem_of_fmap. exists row. by rewrite Hm.
  - intros row Hin Hm. exists (values ∪ row). split_and!.
    + apply list_elem_of_fmap. exists row. by rewrite Hm.
    + intros k v Hk. by apply lookup_union_Some_l.
    + intros k Hk. by rewrite lookup_union_r.
  - intros row' (row & -> & Hin)%list_elem_of_fmap. by exists row.
Qed.

(** X9: update is idempotent: sending the same update again, to the store
    the first one left, gives the same answer, the same store and the same
    log, whether the first one went through or not. *)
Theorem put_twice_is_put_once p q req s :
  Pipeline_put fl p q req (stored (Pipeline_put fl p q req s)) =
  Pipeline_put fl p q req s.
Proof.
  unfold Pipeline_put. destruct req as [|b|z|t|l|values]; try done.
  destruct (update_fault fl values) eqn:Hupd; [done|].
  destruct (can_commit fl (MkStore (update_rows p q values (pipelines s))
                                   (runs s) (sessions s))) eqn:Hc; simpl.
  - by rewrite update_rows_idempotent, Hc.
  - by rewrite Hc.
Qed.

(** X10: whatever the environment, an update whose body is an object
    either answers 200 with the success message, which takes a bulk update
    that raises nothing and an accepted commit, or it answers 500 with the
    fixed message "Failed update operation.", leaves the store as it was and
    ends with a rollback; the text of the error is never in the answer. *)
Theorem put_fails_with_fixed_message p q values s :
  let h := Pipeline_put fl p q (JObj values) s in
  (response h = MkResponse (message "Pipeline was updated successfully.") 200 ∧
   update_fault fl values = None ∧
   can_commit fl (stored h) = true ∧
   last (trace h) = Some EvCommit) ∨
  (response h = MkResponse (message "Failed update operation.") 500 ∧
   stored h = s ∧ last (trace h) = Some EvRollback).
Proof.
  intros h. subst h. unfold Pipeline_put.
  destruct (update_fault fl values) eqn:Hupd; [right; done|].
  destruct (can_commit fl _) eqn:Hc; [|right; done].
  left. done.
Qed.

(** X11: update then fetch: when the update does not name the identifier
    columns and goes through, a pipeline that could be fetched before is
    fetched afterwards with the given values laid over its row. *)
Theorem put_then_get p q values s row :
  values !! "project_uuid" = None →
  values !! "uuid" = None →
  Pipeline_get p q s = inr (MkResponse (JObj row) 200) →
  update_fault fl values = None →
  can_commit fl (MkStore (update_rows p q values (pipelines s)) (runs s) (sessions s))
    = true →
  Pipeline_get p q (stored (Pipeline_put fl p q (JObj values) s)) =
  inr (MkResponse (JObj (values ∪ row)) 200).
Proof.
  intros Hp Hq Hget Hupd Hc. unfold Pipeline_put. rewrite Hupd, Hc.
  unfold Pipeline_get in *. simpl.
  rewrite update_rows_keeps_matches by done.
  destruct (filter _ (pipelines s)) as [|r1 [|r2 rest]]; try done.
  by injection Hget as ->.
Qed.

End EndpointExtras.

(** ** Delete *)

Section DeleteExtras.

Variable fl : Faults.

Implicit Types (s : Store) (ext : External).

(** The two ways a delete scope ends: nothing happened, or everything
    did. *)
Lemma delete_scope_outcome p q s ext :
  let o := delete_scope fl p q s ext in
  (∃ e, result o = inl e ∧ store o = s ∧ external o = ext ∧
        ran (events o) = [] ∧ commits (events o) = 0) ∨
  (∃ fails, result o = inr fails ∧ can_begin fl = true ∧
        commits (events o) = 1 ∧
        ran (events o) = transaction_collateral p q s ∧
        pipelines (store o) = pipelines s ∧
        sessions (store o) = sessions s ∖ {[ (p, q) ]} ∧
        (∀ u, u ∉ (interactive_runs p q s).*1 → runs (store o) !! u = runs s !! u) ∧
        (∀ u, u ∈ (interactive_runs p q s).*1 → runs (store o) !! u = None)).
Proof.
  intros o. subst o.
  destruct (delete_body_spec fl p q s)
    as (evs & Hlog & Hq & Hall & Hpip & Hruns & Hin & Hend).
  destruct (tx_events_quiet _ Hall) as (Hran & Hcom & _).
  unfold delete_scope, scope, open, close.
  destruct (can_begin fl).
  2:{ left. eexists. simpl. split_and!; done. }
  destruct (exec (delete_body fl p q) (fresh s)) as [[e|r] c]; simpl in *.
  { left. exists e. simpl. rewrite Hlog.
    change (EvCall (LDeletePipeline p q) :: evs)
      with ([EvCall (LDeletePipeline p q)] ++ evs).
    rewrite !ran_app, !commits_app, Hran, Hcom. done. }
  destruct Hend as (Hd & Hcalls & Hreg & Hses & Hgone). rewrite Hd.
  destruct (can_commit fl (work c)).
  - pose proof (drain_events (Label := Label) (collateral_step fl) (queue c) ext)
      as Hdrain.
    destruct (drain (collateral_step fl) (queue c) ext) as [[ext' devs] fails].
    simpl in *. subst devs. right. exists fails. simpl. rewrite Hlog.
    change (EvCall (LDeletePipeline p q) :: evs)
      with ([EvCall (LDeletePipeline p q)] ++ evs).
    rewrite (cons_middle EvCommit).
    rewrite !ran_app, !commits_app, Hran, Hcom, ran_collateral, commits_collateral.
    simpl. rewrite Hq, Hreg. done.
  - left. eexists. simpl. rewrite Hlog.
    change (EvCall (LDeletePipeline p q) :: evs)
      with ([EvCall (LDeletePipeline p q)] ++ evs).
    rewrite !ran_app, !commits_app, Hran, Hcom. done.
Qed.

(** After a commit no run of the pipeline is left for the query. *)
Lemma interactive_runs_gone p q s (s' : Store) :
  (∀ u, u ∉ (interactive_runs p q s).*1 → runs s' !! u = runs s !! u) →
  (∀ u, u ∈ (interactive_runs p q s).*1 → runs s' !! u = None) →
  interactive_runs p q s' = [].
Proof.
  intros Hkeep Hgone.
  destruct (interactive_runs p q s') as [|[u run] rest] eqn:Hl; [done|].
  assert ((u, run) ∈ interactive_runs p q s') as Hin
    by (rewrite Hl; apply elem_of_cons; by left).
  apply elem_of_interactive_runs in Hin as [Hrun Hnt].
  destruct (decide (u ∈ (interactive_runs p q s).*1)) as [Hsel|Hsel].
  - rewrite Hgone in Hrun; done.
  - rewrite Hkeep in Hrun by done. exfalso. apply Hsel.
    apply list_elem_of_fmap. exists (u, run). split; [done|].
    by apply elem_of_interactive_runs.
Qed.

(** X12: delete is all or nothing as seen from its answer.  Either it
    answers 500, and then the store and the external world are as before,
    nothing was committed and no collateral effect ran; or it answers 200
    with the success message, and then exactly one commit happened, the
    pipelines are as before, and neither a non-terminal interactive run of
    the pipeline nor a session of the pipeline is left in the store. *)
Theorem delete_all_or_nothing p q s ext :
  let resp := (Pipeline_delete fl p q s ext).1 in
  let o := (Pipeline_delete fl p q s ext).2 in
  (status resp = 500%Z ∧ store o = s ∧ external o = ext ∧
   ran (events o) = [] ∧ commits (events o) = 0) ∨
  (resp = MkResponse (message "Pipeline deletion was successful.") 200 ∧
   commits (events o) = 1 ∧
   pipelines (store o) = pipelines s ∧
   interactive_runs p q (store o) = [] ∧
   (p, q) ∉ sessions (store o)).
Proof.
  intros resp o. subst resp o. unfold Pipeline_delete.
  destruct (delete_scope_outcome p q s ext)
    as [(e & Hres & Hst & Hext & Hran & Hcom)
       |(fails & Hres & _ & Hcom & _ & Hpip & Hses & Hkeep & Hgone)];
    rewrite Hres; simpl.
  - left. done.
  - right. split_and!; [done|done|done| |].
    + by eapply interactive_runs_gone.
    + rewrite Hses. set_solver.
Qed.

(** X13: when the environment raises nothing (the transaction begins, no
    store primitive raises, the commit is accepted), delete answers 200 with
    the success message. *)
Theorem delete_succeeds_when_nothing_raises p q s ext :
  can_begin fl = true →
  (∀ l, fault fl l = None) →
  (∀ s', can_commit fl s' = true) →
  (Pipeline_delete fl p q s ext).1 =
  MkResponse (message "Pipeline deletion was successful.") 200.
Proof.
  intros Hbegin Hfault Hcommit.
  destruct (delete_body_spec fl p q s) as (evs & _ & _ & _ & _ & _ & _ & Hend).
  unfold Pipeline_delete, delete_scope, scope, open, close. rewrite Hbegin.
  destruct (exec (delete_body fl p q) (fresh s)) as [[e|r] c]; simpl in *.
  { destruct Hend as (l & Hl & _). by rewrite Hfault in Hl. }
  destruct Hend as (Hd & _). rewrite Hd, Hcommit.
  by destruct (drain (collateral_step fl) (queue c) ext) as [[??]?].
Qed.

(** The scope when the query finds no run and there is no session. *)
Lemma delete_scope_idle p q s ext :
  interactive_runs p q s = [] →
  (p, q) ∉ sessions s →
  can_begin fl = true →
  can_commit fl s = true →
  delete_scope fl p q s ext =
  MkOutcome (inr []) s ext
    [EvCall (LDeletePipeline p q); EvCall (LStopInteractiveSession p q); EvCommit].
Proof.
  intros Hruns Hses Hbegin Hcommit.
  unfold delete_scope, scope, open, close. rewrite Hbegin.
  rewrite exec_delete_body. unfold DeletePipeline_transaction. cbn [exec].
  simpl work. rewrite Hruns. cbn [abort_and_delete exec]. simpl doomed.
  rewrite exec_StopInteractiveSession. simpl work.
  rewrite bool_decide_eq_false_2 by done. simpl. by rewrite Hcommit.
Qed.

(** X14: with no non-terminal interactive run and no session of the
    pipeline, delete calls no store primitive: whatever faults the
    environment holds for them, once the transaction begins and the commit
    is accepted it answers 200, leaves the store and the external world as
    they were, and its log is the two delegations and the commit. *)
Theorem delete_with_nothing_to_do p q s ext :
  interactive_runs p q s = [] →
  (p, q) ∉ sessions s →
  can_begin fl = true →
  can_commit fl s = true →
  Pipeline_delete fl p q s ext =
  (MkResponse (message "Pipeline deletion was successful.") 200,
   MkOutcome (inr []) s ext
     [EvCall (LDeletePipeline p q); EvCall (LStopInteractiveSession p q); EvCommit]).
Proof.
  intros Hruns Hses Hbegin Hcommit. unfold Pipeline_delete.
  by rewrite delete_scope_idle.
Qed.

(** X15: a second delete finds nothing to do: after a delete that answered
    200, deleting the same pipeline again (commit accepted) answers 200,
    changes neither the store nor the external world, and runs no collateral
    effect. *)
Theorem delete_again_changes_nothing p q s ext ext' :
  let first := Pipeline_delete fl p q s ext in
  status first.1 = 200%Z →
  can_commit fl (store first.2) = true →
  Pipeline_delete fl p q (store first.2) ext' =
  (MkResponse (message "Pipeline deletion was successful.") 200,
   MkOutcome (inr []) (store first.2) ext'
     [EvCall (LDeletePipeline p q); EvCall (LStopInteractiveSession p q); EvCommit]).
Proof.
  intros first Hok Hcommit. subst first. unfold Pipeline_delete in *.
  destruct (delete_scope_outcome p q s ext)
    as [(e & Hres & _)|(fails & Hres & Hbegin & _ & _ & _ & Hses & Hkeep & Hgone)];
    rewrite Hres in *; simpl in *; [done|].
  rewrite delete_scope_idle; try done.
  - by eapply interactive_runs_gone.
  - rewrite Hses. set_solver.
Qed.

(** X16: delete stays inside its pipeline: a run of another project or
    pipeline, or a run that is not interactive, is in the store unchanged
    afterwards, and so is the session of every other pipeline. *)
Theorem delete_keeps_other_pipelines p q s ext :
  let o := delete_scope fl p q s ext in
  (∀ u run, runs s !! u = Some run →
            run_project_uuid run ≠ p ∨ run_pipeline_uuid run ≠ q ∨
            run_interactive run = false →
            runs (store o) !! u = Some run) ∧
  (∀ p' q', (p', q') ≠ (p, q) →
            ((p', q') ∈ sessions (store o) ↔ (p', q') ∈ sessions s)).
Proof.
  intros o. subst o.
  destruct (delete_scope_outcome p q s ext)
    as [(e & _ & -> & _)|(fails & _ & _ & _ & _ & _ & Hses & Hkeep & _)]; [done|].
  split.
  - intros u run Hrun Hother. rewrite Hkeep; [done|].
    intros ([u' run'] & -> & Hin)%list_elem_of_fmap.
    apply elem_of_interactive_runs in Hin as [Hrun' (Hi & Hp & Hq & _)].
    simpl in *. simplify_eq. destruct Hother as [?|[?|?]]; congruence.
  - intros p' q' Hne. rewrite Hses. set_solver.
Qed.

(** X17: a deleted pipeline can still be fetched and listed: whatever
    delete did, fetching any pipeline and listing all pipelines answer
    afterwards what they answered before. *)
Theorem delete_then_get_and_list p q s ext p' q' :
  let o := delete_scope fl p q s ext in
  Pipeline_get p' q' (store o) = Pipeline_get p' q' s ∧
  PipelineList_get (store o) = PipelineList_get s.
Proof.
  intros o. subst o. unfold Pipeline_get, PipelineList_get.
  destruct (delete_scope_outcome p q s ext)
    as [(e & _ & -> & _)|(fails & _ & _ & _ & _ & -> & _)]; done.
Qed.


End DeleteExtras.

(** ** Migration 9eda3c5ad4f6 *)

Section MigrationFacts.

Import Migration.

Implicit Types (db : gmap string Table) (t : Table) (r : gmap string string).

Lemma drop_added_value {A} (m : gmap string A) (c : string) (v : A) :
  m !! c = None → delete c (<[ c := v ]> m) = m.
Proof. intros Hr. by rewrite delete_insert_eq, delete_id. Qed.

Lemma table_eta t : MkTable (columns t) (rows t) = t.
Proof. by destruct t. Qed.

(** X19: downgrade undoes upgrade: on a database whose pipeline_runs
    table has no column parameters_text_search_values (and so no row holds a
    value for it), upgrade goes through and downgrade afterwards gives back
    the database, declarations and rows. *)
Theorem upgrade_then_downgrade db t :
  db !! "pipeline_runs" = Some t →
  columns t !! "parameters_text_search_values" = None →
  Forall (fun r => r !! "parameters_text_search_values" = None) (rows t) →
  ∃ db', upgrade db = inr db' ∧ downgrade db' = inr db.
Proof.
  intros Ht Hc Hrows. unfold upgrade, add_column. rewrite Ht, Hc. simpl.
  eexists. split; [done|].
  unfold downgrade, drop_column. rewrite lookup_insert_eq. simpl.
  rewrite lookup_insert_eq. f_equal.
  rewrite insert_insert_eq, (drop_added_value _ _ _ Hc).
  rewrite <- list_fmap_compose.
  rewrite (list_fmap_ext _ id (rows t)).
  - rewrite list_fmap_id, table_eta. by apply insert_id.
  - intros i r Hi. simpl. apply drop_added_value.
    by eapply (proj1 (Forall_lookup _ _) Hrows).
Qed.

(** X20: upgrade goes through whatever rows the table holds.  Afterwards
    the column is declared JSONB, NOT NULL, with the server default "[]";
    every row holds "[]" for it, so the NOT NULL declaration is met; the
    number of rows, their other values, the other columns and the other
    tables are as before. *)
Theorem upgrade_fills_existing_rows db t :
  db !! "pipeline_runs" = Some t →
  columns t !! "parameters_text_search_values" = None →
  ∃ db' t',
    upgrade db = inr db' ∧ db' !! "pipeline_runs" = Some t' ∧
    columns t' !! "parameters_text_search_values"
      = Some (MkColumn "JSONB" (Some "[]") false) ∧
    (∀ k, k ≠ "parameters_text_search_values" → columns t' !! k = columns t !! k) ∧
    length (rows t') = length (rows t) ∧
    (∀ i r, rows t !! i = Some r →
       ∃ r', rows t' !! i = Some r' ∧
             r' !! "parameters_text_search_values" = Some "[]" ∧
             ∀ k, k ≠ "parameters_text_search_values" → r' !! k = r !! k) ∧
    (∀ name, name ≠ "pipeline_runs" → db' !! name = db !! name).
Proof.
  intros Ht Hc. unfold upgrade, add_column. rewrite Ht, Hc. simpl.
  eexists _, _. split; [done|]. rewrite lookup_insert_eq. split; [done|]. simpl.
  split_and!.
  - apply lookup_insert_eq.
  - intros k Hk. by rewrite lookup_insert_ne.
  - by rewrite length_fmap.
  - intros i r Hi. rewrite list_lookup_fmap, Hi. simpl. eexists. split; [done|].
    split; [apply lookup_insert_eq|]. intros k Hk. by rewrite lookup_insert_ne.
  - intros name Hname. by rewrite lookup_insert_ne.
Qed.

(** X21: upgrade fails exactly when the table pipeline_runs is missing or
    already has the column; the rows of the table never make it fail. *)
Theorem upgrade_fails_iff db :
  (∃ e, upgrade db = inl e) ↔
  db !! "pipeline_runs" = None ∨
  ∃ t, db !! "pipeline_runs" = Some t ∧
       is_Some (columns t !! "parameters_text_search_values").
Proof.
  unfold upgrade, add_column.
  destruct (db !! "pipeline_runs") as [t|] eqn:Ht.
  - destruct (columns t !! "parameters_text_search_values") as [c|] eqn:Hc; simpl.
    + split; [|by eexists]. intros _. right. exists t. split; [done|]. by eexists.
    + split; [by intros [e ?]|]. intros [?|(t' & [= <-] & [c Hc'])]; [done|].
      congruence.
  - split; [by left|]. by eexists.
Qed.

(** X22: neither direction can be applied twice: after an upgrade that went
    through a second upgrade fails (the column is there), and after a
    downgrade that went through a second downgrade fails (the column is
    gone). *)
Theorem migration_not_twice db db' :
  (upgrade db = inr db' → ∃ e, upgrade db' = inl e) ∧
  (downgrade db = inr db' → ∃ e, downgrade db' = inl e).
Proof.
  split.
  - unfold upgrade, add_column.
    destruct (db !! "pipeline_runs") as [t|]; [|done].
    destruct (columns t !! "parameters_text_search_values"); [done|]. simpl.
    intros [= <-]. rewrite lookup_insert_eq. simpl. rewrite lookup_insert_eq.
    by eexists.
  - unfold downgrade, drop_column.
    destruct (db !! "pipeline_runs") as [t|]; [|done].
    destruct (columns t !! "parameters_text_search_values"); [|done].
    intros [= <-]. rewrite lookup_insert_eq. simpl. rewrite lookup_delete_eq.
    by eexists.
Qed.

(** X23: downgrade loses the values: going down and up again on an
    upgraded database restores the declaration of the column, but every row
    then holds the default "[]", whatever it held before. *)
Theorem downgrade_then_upgrade_resets_values db t :
  db !! "pipeline_runs" = Some t →
  is_Some (columns t !! "parameters_text_search_values") →
  ∃ db1 db2 t2,
    downgrade db = inr db1 ∧ upgrade db1 = inr db2 ∧
    db2 !! "pipeline_runs" = Some t2 ∧
    columns t2 = <[ "parameters_text_search_values"
                    := MkColumn "JSONB" (Some "[]") false ]> (columns t) ∧
    length (rows t2) = length (rows t) ∧
    Forall (fun r => r !! "parameters_text_search_values" = Some "[]") (rows t2).
Proof.
  intros Ht [c Hc]. unfold downgrade, drop_column. rewrite Ht, Hc.
  eexists _, _, _. split; [done|].
  unfold upgrade, add_column. rewrite lookup_insert_eq. simpl.
  rewrite lookup_delete_eq. simpl. split; [done|].
  rewrite lookup_insert_eq. split; [done|]. simpl. split_and!.
  - by rewrite insert_delete_eq.
  - by rewrite !length_fmap.
  - apply Forall_fmap, Forall_fmap, Forall_true. intros r. simpl.
    apply lookup_insert_eq.
Qed.

End MigrationFacts.

(** ** The further properties on the scenarios *)

Lemma post_created_has_env_variables_witness :
  let h := PipelineList_post no_faults (JObj body_without) storeD in
  status (response h) = 201%Z ∧
  ∃ row, body (response h) = JObj row ∧
         is_Some (row !! "env_variables") ∧
         last (pipelines (stored h)) = Some row.
Proof.
  split; [reflexivity|].
  exact (post_created_has_env_variables no_faults (JObj body_without) storeD eq_refl).
Defined.

Lemma post_then_get_witness :
  body_without !! "project_uuid" = Some (JStr "proj") ∧
  body_without !! "uuid" = Some (JStr "pipe2") ∧
  (∀ row, row ∈ pipelines storeD → matches "proj" "pipe2" row = false) ∧
  add_fault no_faults (set_env_variables body_without) = None ∧
  can_commit no_faults (add_pipeline (set_env_variables body_without) storeD) = true ∧
  Pipeline_get "proj" "pipe2"
    (stored (PipelineList_post no_faults (JObj body_without) storeD)) =
  inr (MkResponse (JObj (set_env_variables body_without)) 200).
Proof.
  assert (body_without !! "project_uuid" = Some (JStr "proj")) as H1
    by (vm_compute; reflexivity).
  assert (body_without !! "uuid" = Some (JStr "pipe2")) as H2
    by (vm_compute; reflexivity).
  assert (∀ row, row ∈ pipelines storeD → matches "proj" "pipe2" row = false) as H3.
  { intros row Hin. apply list_elem_of_singleton in Hin. subst row.
    vm_compute. reflexivity. }
  split; [exact H1|]. split; [exact H2|]. split; [exact H3|].
  split; [reflexivity|]. split; [reflexivity|].
  exact (proj2 (post_then_get no_faults body_without storeD "proj" "pipe2"
                  H1 H2 H3 eq_refl eq_refl)).
Defined.

Lemma get_found_is_the_match_witness :
  Pipeline_get "proj" "pipe" storeA = inr (MkResponse (JObj rowA) 200) ∧
  ∃ row, JObj rowA = JObj row ∧ row ∈ pipelines storeA ∧
         row !! "project_uuid" = Some (JStr "proj") ∧
         row !! "uuid" = Some (JStr "pipe") ∧
         ∀ row', row' ∈ pipelines storeA → matches "proj" "pipe" row' = true →
                 row' = row.
Proof.
  assert (Pipeline_get "proj" "pipe" storeA = inr (MkResponse (JObj rowA) 200)) as H
    by (vm_compute; reflexivity).
  split; [exact H|].
  exact (get_found_is_the_match "proj" "pipe" storeA (JObj rowA) H).
Defined.

Lemma get_raises_on_duplicates_witness :
  0 ≠ 2 ∧
  pipelines storeDup !! 0 = Some rowA ∧
  pipelines storeDup !! 2 = Some (<[ "env_variables" := JObj ∅ ]> rowA) ∧
  matches "proj" "pipe" rowA = true ∧
  matches "proj" "pipe" (<[ "env_variables" := JObj ∅ ]> rowA) = true ∧
  ∃ e, Pipeline_get "proj" "pipe" storeDup = inl e.
Proof.
  assert (0 ≠ 2) as H0 by lia.
  assert (pipelines storeDup !! 0 = Some rowA) as H1 by reflexivity.
  assert (pipelines storeDup !! 2 = Some (<[ "env_variables" := JObj ∅ ]> rowA)) as H2
    by (vm_compute; reflexivity).
  assert (matches "proj" "pipe" rowA = true) as H3 by (vm_compute; reflexivity).
  assert (matches "proj" "pipe" (<[ "env_variables" := JObj ∅ ]> rowA) = true) as H4
    by (vm_compute; reflexivity).
  split; [exact H0|]. split; [exact H1|]. split; [exact H2|].
  split; [exact H3|]. split; [exact H4|].
  exact (get_raises_on_duplicates "proj" "pipe" storeDup 0 2 _ _ H0 H1 H2 H3 H4).
Defined.

Lemma put_updates_matching_rows_witness :
  update_fault no_faults values_env = None ∧
  can_commit no_faults
    (MkStore (update_rows "proj" "pipe" values_env (pipelines storeDup))
             (runs storeDup) (sessions storeDup)) = true ∧
  let h := Pipeline_put no_faults "proj" "pipe" (JObj values_env) storeDup in
  status (response h) = 200%Z ∧
  length (pipelines (stored h)) = length (pipelines storeDup).
Proof.
  split; [reflexivity|]. split; [reflexivity|].
  destruct (put_updates_matching_rows no_faults "proj" "pipe" values_env storeDup
              eq_refl eq_refl) as (Hst & Hlen & _).
  split; [exact Hst|exact Hlen].
Defined.

Lemma put_then_get_witness :
  values_env !! "project_uuid" = None ∧
  values_env !! "uuid" = None ∧
  Pipeline_get "proj" "pipe" storeA = inr (MkResponse (JObj rowA) 200) ∧
  update_fault no_faults values_env = None ∧
  can_commit no_faults
    (MkStore (update_rows "proj" "pipe" values_env (pipelines storeA))
             (runs storeA) (sessions storeA)) = true ∧
  Pipeline_get "proj" "pipe"
    (stored (Pipeline_put no_faults "proj" "pipe" (JObj values_env) storeA)) =
  inr (MkResponse (JObj (values_env ∪ rowA)) 200).
Proof.
  assert (values_env !! "project_uuid" = None) as H1 by (vm_compute; reflexivity).
  assert (values_env !! "uuid" = None) as H2 by (vm_compute; reflexivity).
  assert (Pipeline_get "proj" "pipe" storeA = inr (MkResponse (JObj rowA) 200)) as H3
    by (vm_compute; reflexivity).
  split; [exact H1|]. split; [exact H2|]. split; [exact H3|].
  split; [reflexivity|]. split; [reflexivity|].
  exact (put_then_get no_faults "proj" "pipe" values_env storeA rowA
           H1 H2 H3 eq_refl eq_refl).
Defined.

Lemma delete_succeeds_when_nothing_raises_witness :
  can_begin no_faults = true ∧
  (∀ l, fault no_faults l = None) ∧
  (∀ s', can_commit no_faults s' = true) ∧
  (Pipeline_delete no_faults "proj" "pipe" storeA extA).1 =
  MkResponse (message "Pipeline deletion was successful.") 200.
Proof.
  split; [reflexivity|]. split; [intros l; reflexivity|].
  split; [intros s'; reflexivity|].
  exact (delete_succeeds_when_nothing_raises no_faults "proj" "pipe" storeA extA
           eq_refl (fun _ => eq_refl) (fun _ => eq_refl)).
Defined.

Lemma delete_with_nothing_to_do_witness :
  interactive_runs "proj" "pipe" storeD = [] ∧
  (("proj", "pipe") ∉ sessions storeD) ∧
  can_begin faultsB = true ∧
  can_commit faultsB storeD = true ∧
  Pipeline_delete faultsB "proj" "pipe" storeD extD =
  (MkResponse (message "Pipeline deletion was successful.") 200,
   MkOutcome (inr []) storeD extD
     [EvCall (LDeletePipeline "proj" "pipe");
      EvCall (LStopInteractiveSession "proj" "pipe"); EvCommit]).
Proof.
  assert (interactive_runs "proj" "pipe" storeD = []) as H1
    by (vm_compute; reflexivity).
  assert (("proj", "pipe") ∉ sessions storeD) as H2 by apply not_elem_of_empty.
  split; [exact H1|]. split; [exact H2|]. split; [reflexivity|].
  split; [reflexivity|].
  exact (delete_with_nothing_to_do faultsB "proj" "pipe" storeD extD
           H1 H2 eq_refl eq_refl).
Defined.

Lemma delete_again_changes_nothing_witness :
  let first := Pipeline_delete no_faults "proj" "pipe" storeA extA in
  status first.1 = 200%Z ∧
  can_commit no_faults (store first.2) = true ∧
  Pipeline_delete no_faults "proj" "pipe" (store first.2) extD =
  (MkResponse (message "Pipeline deletion was successful.") 200,
   MkOutcome (inr []) (store first.2) extD
     [EvCall (LDeletePipeline "proj" "pipe");
      EvCall (LStopInteractiveSession "proj" "pipe"); EvCommit]).
Proof.
  assert (status (Pipeline_delete no_faults "proj" "pipe" storeA extA).1 = 200%Z)
    as H1 by (vm_compute; reflexivity).
  split; [exact H1|]. split; [reflexivity|].
  exact (delete_again_changes_nothing no_faults "proj" "pipe" storeA extA extD
           H1 eq_refl).
Defined.


Lemma upgrade_then_downgrade_witness :
  dbA !! "pipeline_runs" = Some tableA ∧
  Migration.columns tableA !! "parameters_text_search_values" = None ∧
  Forall (fun r => r !! "parameters_text_search_values" = None)
         (Migration.rows tableA) ∧
  ∃ db', Migration.upgrade dbA = inr db' ∧ Migration.downgrade db' = inr dbA.
Proof.
  assert (dbA !! "pipeline_runs" = Some tableA) as H1 by (vm_compute; reflexivity).
  assert (Migration.columns tableA !! "parameters_text_search_values" = None) as H2
    by (vm_compute; reflexivity).
  assert (Forall (fun r => r !! "parameters_text_search_values" = None)
                 (Migration.rows tableA)) as H3
    by (repeat (constructor; [vm_compute; reflexivity|]); constructor).
  split; [exact H1|]. split; [exact H2|]. split; [exact H3|].
  exact (upgrade_then_downgrade dbA tableA H1 H2 H3).
Defined.

Lemma upgrade_fills_existing_rows_witness :
  dbA !! "pipeline_runs" = Some tableA ∧
  Migration.columns tableA !! "parameters_text_search_values" = None ∧
  ∃ db' t', Migration.upgrade dbA = inr db' ∧ db' !! "pipeline_runs" = Some t' ∧
            length (Migration.rows t') = length (Migration.rows tableA).
Proof.
  assert (dbA !! "pipeline_runs" = Some tableA) as H1 by (vm_compute; reflexivity).
  assert (Migration.columns tableA !! "parameters_text_search_values" = None) as H2
    by (vm_compute; reflexivity).
  split; [exact H1|]. split; [exact H2|].
  destruct (upgrade_fills_existing_rows dbA tableA H1 H2)
    as (db' & t' & Hup & Ht' & _ & _ & Hlen & _).
  exists db', t'. split; [exact Hup|]. split; [exact Ht'|exact Hlen].
Defined.

Lemma downgrade_then_upgrade_resets_values_witness :
  dbUp !! "pipeline_runs" = Some tableUp ∧
  is_Some (Migration.columns tableUp !! "parameters_text_search_values") ∧
  ∃ db1 db2 t2,
    Migration.downgrade dbUp = inr db1 ∧ Migration.upgrade db1 = inr db2 ∧
    db2 !! "pipeline_runs" = Some t2 ∧
    Forall (fun r => r !! "parameters_text_search_values" = Some "[]")
           (Migration.rows t2).
Proof.
  assert (dbUp !! "pipeline_runs" = Some tableUp) as H1 by (vm_compute; reflexivity).
  assert (is_Some (Migration.columns tableUp !! "parameters_text_search_values")) as H2
    by (eexists; vm_compute; reflexivity).
  split; [exact H1|]. split; [exact H2|].
  destruct (downgrade_then_upgrade_resets_values dbUp tableUp H1 H2)
    as (db1 & db2 & t2 & Hd & Hu & Ht2 & _ & _ & Hall).
  exists db1, db2, t2. split; [exact Hd|]. split; [exact Hu|].
  split; [exact Ht2|exact Hall].
Defined.
